(** * Binary Gravitational Search Algorithm for feature selection

    A shallow embedding of [GSA2.2.PY]: the fitness evaluator
    [evaluate_solution] and the optimisation loop [GSA_feature_selection].

    Conventions of the embedding.
    - Python/NumPy [float64] values are modelled by real numbers ([R]);
      rounding, [inf] produced by overflow and [nan] are not modelled.  The
      one infinite value the script writes down itself, [float('inf')], is a
      constructor of [efloat].
    - NumPy integer arrays are lists of [Z]; a matrix is a list of rows.
    - The global NumPy generator is modelled by the sequence of values its
      draws return, in call order: the state threaded through the code is
      the index of the next draw.
    - The k-NN classifier, the data set and its split are external: the
      accuracy the classifier reaches on a set of selected columns is a
      parameter of the development. *)

From Stdlib Require Import String.
From Stdlib Require Import Reals ZArith List Lia Lra Bool.
From Stdlib Require Import Sorted.
Import ListNotations.
Local Open Scope R_scope.

(** ** Vectors and the NumPy primitives the script calls *)

Module Np.

(** Elementwise binary operation on two arrays of the same shape. *)
Fixpoint map2 {A B C : Type} (f : A -> B -> C) (u : list A) (v : list B) : list C :=
  match u, v with
  | x :: u', y :: v' => f x y :: map2 f u' v'
  | _, _ => []
  end.

(** [np.zeros(d)] *)
Definition zeros (d : nat) : list R := repeat 0 d.

(** [np.count_nonzero(v)] on an integer vector. *)
Definition count_nonzero (v : list Z) : nat :=
  length (filter (fun b => negb (b =? 0)%Z) v).

(** [np.where(v == 1)[0]]: the indices holding exactly 1, ascending. *)
Fixpoint where_eq1_from (k : nat) (v : list Z) : list nat :=
  match v with
  | [] => []
  | b :: v' => if (b =? 1)%Z then k :: where_eq1_from (S k) v'
               else where_eq1_from (S k) v'
  end.
Definition where_eq1 (v : list Z) : list nat := where_eq1_from 0 v.

(** [np.min] and [np.max] raise [ValueError] on an empty array. *)
Definition min (l : list R) : option R :=
  match l with
  | [] => None
  | x :: l' => Some (fold_left Rmin l' x)
  end.

Definition max (l : list R) : option R :=
  match l with
  | [] => None
  | x :: l' => Some (fold_left Rmax l' x)
  end.

(** [np.argmin]: index of the first occurrence of the minimum. *)
Fixpoint argmin_from (k best_k : nat) (best : R) (l : list R) : nat :=
  match l with
  | [] => best_k
  | x :: l' => if Rlt_dec x best then argmin_from (S k) k x l'
               else argmin_from (S k) best_k best l'
  end.
Definition argmin (l : list R) : option nat :=
  match l with
  | [] => None
  | x :: l' => Some (argmin_from 1 0 x l')
  end.

(** [np.sum] of a vector. *)
Definition sum (l : list R) : R := fold_right Rplus 0 l.

(** [np.linalg.norm] of a vector: the Euclidean norm. *)
Definition norm (v : list R) : R := sqrt (sum (map (fun x => x * x) v)).

(** [np.sum(X, axis=0)] of an integer matrix with [d] columns. *)
Definition sum_axis0 (d : nat) (X : list (list Z)) : list Z :=
  map (fun k => fold_right Z.add 0%Z (map (fun row => nth k row 0%Z) X)) (seq 0 d).

(** [.astype(int)] on a boolean. *)
Definition astype_int (b : bool) : Z := if b then 1%Z else 0%Z.

(** [x > y] on floats. *)
Definition gt (x y : R) : bool := if Rlt_dec y x then true else false.

End Np.

(** ** Floats that may be infinite *)

Inductive efloat : Type :=
| NegInf
| Finite (r : R)
| PosInf.

(** [x < b] for a finite [x]. *)
Definition lt_efloat (x : R) (b : efloat) : bool :=
  match b with
  | NegInf => false
  | Finite r => if Rlt_dec x r then true else false
  | PosInf => true
  end.

(** [a <= b] as a proposition. *)
Definition efloat_le (a b : efloat) : Prop :=
  match a, b with
  | NegInf, _ => True
  | _, PosInf => True
  | Finite x, Finite y => x <= y
  | _, _ => False
  end.

(** [1.0 - b] *)
Definition one_minus (b : efloat) : efloat :=
  match b with
  | NegInf => PosInf
  | Finite r => Finite (1 - r)
  | PosInf => NegInf
  end.

(** ** Outcomes of code that may raise *)

Inductive exn : Type :=
| ValueError (msg : string).

Inductive outcome (A : Type) : Type :=
| Ok (a : A)
| Raise (e : exn).
Arguments Ok {A} a.
Arguments Raise {A} e.

(** ** The fitness evaluator (lines 34-50) *)

(** What one evaluation does: either it returns at once, or it fits and
    scores the classifier on the selected columns and maps the accuracy to
    the fitness. *)
Inductive evaluation : Type :=
| Return (fitness : R)
| FitPredict (selected : list nat) (k : R -> R).

Definition evaluate_solution_steps (binary_vector : list Z) : evaluation :=
  if Nat.eqb (Np.count_nonzero binary_vector) 0 then Return 1.0
  else
    let selected := Np.where_eq1 binary_vector in
    FitPredict selected (fun acc =>
      let penalty := INR (Np.count_nonzero binary_vector) / INR (length binary_vector) in
      1.0 - (acc - 0.01 * penalty)).

Definition run_evaluation (accuracy : list nat -> R) (e : evaluation) : R :=
  match e with
  | Return f => f
  | FitPredict selected k => k (accuracy selected)
  end.

(** ** Mass computer (lines 81-84) and gravitational constant (line 86) *)

Definition eps : R := 1e-20.

(** The four denominators of the engine. *)
Definition raw_mass_denominator (best worst : R) : R := best - worst + eps.
Definition mass_denominator (m : list R) : R := Np.sum m + eps.

(** [m = (fitness - worst) / (best - worst + eps)] *)
Definition raw_mass (fitness : list R) (best worst : R) : list R :=
  map (fun f => (f - worst) / raw_mass_denominator best worst) fitness.

(** [M = m / (np.sum(m) + eps)] *)
Definition mass (m : list R) : list R :=
  map (fun x => x / mass_denominator m) m.

(** The mass vector of a fitness vector, as the loop body computes it. *)
Definition mass_of_fitness (fitness : list R) : option (list R) :=
  match Np.min fitness, Np.max fitness with
  | Some best, Some worst => Some (mass (raw_mass fitness best worst))
  | _, _ => None
  end.

(** [G = 100 * np.exp(-20 * t / max_iter)] *)
Definition G (max_iter t : Z) : R :=
  100 * exp (IZR (-20 * t) / IZR max_iter).

(** ** Force between two agents (lines 94-96) and the sigmoid (line 105) *)

(** [R = np.linalg.norm(X[i] - X[j])] *)
Definition distance (X : list (list Z)) (i j : nat) : R :=
  Np.norm (map IZR (Np.map2 Z.sub (nth i X []) (nth j X []))).

Definition force_denominator (X : list (list Z)) (i j : nat) : R :=
  distance X i j + eps.

Definition acceleration_denominator (M : list R) (i : nat) : R :=
  nth i M 0 + eps.

(** [force = G * M[i] * M[j] * (X[j] - X[i]) / (R + eps)] *)
Definition force (Gt : R) (M : list R) (X : list (list Z)) (i j : nat) : list R :=
  map (fun dx => Gt * nth i M 0 * nth j M 0 * IZR dx / force_denominator X i j)
      (Np.map2 Z.sub (nth j X []) (nth i X [])).

(** [S = 1 / (1 + np.exp(-V))], one entry. *)
Definition sigmoid (v : R) : R := 1 / (1 + exp (- v)).

(** ** The optimisation engine *)

Section Engine.

(** Accuracy of the 5-NN classifier fitted on the training rows and scored
    on the test rows, restricted to the selected columns (lines 43-46). *)
Variable knn_accuracy : list nat -> R.

(** The values the generator's draws return: [rand k] when draw number
    [k] is a [np.random.rand] sample, [randint k] when it is a
    [np.random.randint(0, 2)] sample. *)
Variable rand : nat -> R.
Variable randint : nat -> Z.

Definition evaluate_solution (binary_vector : list Z) : R :=
  run_evaluation knn_accuracy (evaluate_solution_steps binary_vector).

(** *** Code that draws random numbers *)

Definition Gen (A : Type) : Type := nat -> A * nat.

Definition ret {A : Type} (a : A) : Gen A := fun c => (a, c).

Definition bind {A B : Type} (g : Gen A) (f : A -> Gen B) : Gen B :=
  fun c => let (a, c') := g c in f a c'.

Notation "x <- g ;; f" := (bind g (fun x => f))
  (at level 61, g at next level, right associativity).

(** [np.random.rand()] *)
Definition random_rand : Gen R := fun c => (rand c, S c).

(** [np.random.rand(n, d)]: an [n] by [d] matrix filled row by row. *)
Definition random_rand_matrix (n d : nat) : Gen (list (list R)) :=
  fun c =>
    (map (fun i => map (fun k => rand (c + i * d + k)%nat) (seq 0 d)) (seq 0 n),
     (c + n * d)%nat).

(** [np.random.randint(0, 2, (n, d))] *)
Definition random_randint_matrix (n d : nat) : Gen (list (list Z)) :=
  fun c =>
    (map (fun i => map (fun k => randint (c + i * d + k)%nat) (seq 0 d)) (seq 0 n),
     (c + n * d)%nat).

(** *** Force and acceleration: the loops of lines 90-100 *)

(** The loop over [j] for a fixed [i]. *)
Fixpoint inner_loop (Gt : R) (M : list R) (X : list (list Z)) (i : nat)
         (js : list nat) (total_force : list R) : Gen (list R) :=
  match js with
  | [] => ret total_force
  | j :: js' =>
      if negb (Nat.eqb i j) then
        r <- random_rand ;;
        inner_loop Gt M X i js'
          (Np.map2 Rplus total_force (map (Rmult r) (force Gt M X i j)))
      else inner_loop Gt M X i js' total_force
  end.

(** The loop over [i]; the rows [a[i]] in order. *)
Fixpoint outer_loop (Gt : R) (M : list R) (X : list (list Z))
         (num_agents dim : nat) (rows : list nat) : Gen (list (list R)) :=
  match rows with
  | [] => ret []
  | i :: rows' =>
      total_force <- inner_loop Gt M X i (seq 0 num_agents) (Np.zeros dim) ;;
      rest <- outer_loop Gt M X num_agents dim rows' ;;
      ret (map (fun f => f / acceleration_denominator M i) total_force :: rest)
  end.

Definition accelerations (Gt : R) (M : list R) (X : list (list Z))
           (num_agents dim : nat) : Gen (list (list R)) :=
  outer_loop Gt M X num_agents dim (seq 0 num_agents).

(** *** Velocity and position update (lines 103-107) *)

(** [V = np.random.rand(num_agents, dim) * V + a] *)
Definition update_velocity (num_agents dim : nat) (V a : list (list R))
  : Gen (list (list R)) :=
  r <- random_rand_matrix num_agents dim ;;
  ret (Np.map2 (Np.map2 Rplus) (Np.map2 (Np.map2 Rmult) r V) a).

(** [X = (S > np.random.rand(num_agents, dim)).astype(int)] *)
Definition update_position (num_agents dim : nat) (S : list (list R))
  : Gen (list (list Z)) :=
  u <- random_rand_matrix num_agents dim ;;
  ret (Np.map2 (Np.map2 (fun s x => Np.astype_int (Np.gt s x))) S u).

(** *** The loop (lines 57-119) *)

Record state : Type := mkState {
  X : list (list Z);
  V : list (list R);
  best_fitness : efloat;
  best_position : option (list Z);
  history_fitness : list efloat;
  history_num_features : list nat;
  (* a float array in the script; it only ever holds sums of integers *)
  feature_selection_counter : list Z;
  all_positions : list (list (list Z));
  draws : nat
}.

(** [np.count_nonzero(best_position)]; [None] counts as zero. *)
Definition count_nonzero_position (p : option (list Z)) : nat :=
  match p with
  | Some v => Np.count_nonzero v
  | None => 0%nat
  end.

(** The best-so-far update of lines 76-78. *)
Definition track_best (best : R) (k : nat) (st : state) : efloat * option (list Z) :=
  if lt_efloat best (best_fitness st)
  then (Finite best, Some (nth k (X st) []))
  else (best_fitness st, best_position st).

(** One pass through the body of [for t in range(max_iter)]. *)
Definition iteration (num_agents dim : nat) (max_iter : Z) (t : nat) (st : state)
  : outcome state :=
  let fitness := map evaluate_solution (X st) in
  match Np.min fitness, Np.max fitness, Np.argmin fitness with
  | Some best, Some worst, Some k =>
      let (best_fitness', best_position') := track_best best k st in
      let m := raw_mass fitness best worst in
      let M := mass m in
      let Gt := G max_iter (Z.of_nat t) in
      let (a, c1) := accelerations Gt M (X st) num_agents dim (draws st) in
      let (V', c2) := update_velocity num_agents dim (V st) a c1 in
      let S := map (map sigmoid) V' in
      let (X', c3) := update_position num_agents dim S c2 in
      Ok {| X := X';
            V := V';
            best_fitness := best_fitness';
            best_position := best_position';
            history_fitness := history_fitness st ++ [best_fitness'];
            history_num_features :=
              history_num_features st ++ [count_nonzero_position best_position'];
            feature_selection_counter :=
              Np.map2 Z.add (feature_selection_counter st) (Np.sum_axis0 dim X');
            all_positions := all_positions st ++ [X'];
            draws := c3 |}
  | _, _, _ =>
      Raise (ValueError
        "zero-size array to reduction operation minimum which has no identity"%string)
  end.

Fixpoint loop (num_agents dim : nat) (max_iter : Z) (ts : list nat) (st : state)
  : outcome state :=
  match ts with
  | [] => Ok st
  | t :: ts' =>
      match iteration num_agents dim max_iter t st with
      | Ok st' => loop num_agents dim max_iter ts' st'
      | Raise e => Raise e
      end
  end.

(** The tuple the function returns. *)
Record result : Type := mkResult {
  r_best_position : option (list Z);
  r_best_accuracy : efloat;
  r_history_fitness : list efloat;
  r_history_num_features : list nat;
  r_feature_selection_counter : list Z;
  r_all_positions : list (list (list Z))
}.

(** The state before the first iteration (lines 57-67). *)
Definition initial_state (n d : nat) : state :=
  let (X0, c0) := random_randint_matrix n d 0%nat in
  {| X := X0;
     V := repeat (Np.zeros d) n;
     best_fitness := PosInf;
     best_position := None;
     history_fitness := [];
     history_num_features := [];
     feature_selection_counter := repeat 0%Z d;
     all_positions := [];
     draws := c0 |}.

Definition GSA_feature_selection (num_agents max_iter dim : Z) : outcome result :=
  if ((num_agents <? 0) || (dim <? 0))%Z
  then Raise (ValueError "negative dimensions are not allowed"%string)
  else
    let n := Z.to_nat num_agents in
    let d := Z.to_nat dim in
    match loop n d max_iter (seq 0 (Z.to_nat max_iter)) (initial_state n d) with
    | Ok st =>
        Ok {| r_best_position := best_position st;
              r_best_accuracy := one_minus (best_fitness st);
              r_history_fitness := history_fitness st;
              r_history_num_features := history_num_features st;
              r_feature_selection_counter := feature_selection_counter st;
              r_all_positions := all_positions st |}
    | Raise e => Raise e
    end.

End Engine.

(** ** The update rules in closed form *)

Section ClosedForms.

Variable rand : nat -> R.

(** A velocity update with one inertia scalar per agent: row [i] of the new
    velocity is [r * V[i] + a[i]] for a single [r] in [0,1). *)
Definition per_agent_inertia (V a V' : list (list R)) : Prop :=
  forall i, (i < length V)%nat ->
    exists r, 0 <= r < 1 /\
      nth i V' [] = Np.map2 Rplus (map (Rmult r) (nth i V [])) (nth i a []).

(** Number of the draw that scales the force of agent [j] on agent [i] when
    the force loops start at draw [c]: the ordered pairs are visited row by
    row, the diagonal is skipped. *)
Definition pair_draw (num_agents c i j : nat) : nat :=
  c + i * (num_agents - 1) + (if j <? i then j else j - 1).

(** How many draws row [i] of the force loops has made when its inner loop
    reaches [j = s]. *)
Definition cursor_offset (i s : nat) : nat :=
  if (s <=? i)%nat then s else (s - 1)%nat.

(** Coordinate [k] of [G * M_i * M_j * (x_j - x_i) / (R_ij + eps)]. *)
Definition pairwise_force (Gt : R) (M : list R) (X : list (list Z)) (i j k : nat) : R :=
  Gt * nth i M 0 * nth j M 0
  * (IZR (nth k (nth j X []) 0%Z) - IZR (nth k (nth i X []) 0%Z))
  / (distance X i j + eps).

(** Coordinate [k] of the total force on agent [i]: the sum over the other
    agents of the pairwise force, each scaled by its own draw. *)
Definition total_force_on (Gt : R) (M : list R) (X : list (list Z))
           (num_agents c i k : nat) : R :=
  Np.sum (map (fun j => if Nat.eqb i j then 0
                        else rand (pair_draw num_agents c i j)
                             * pairwise_force Gt M X i j k)
              (seq 0 num_agents)).

(** Entry [k] of the selection counter in closed form: the number of ones in
    column [k] over all rows of all recorded populations. *)
Definition column_total (snapshots : list (list (list Z))) (k : nat) : Z :=
  fold_right Z.add 0%Z
    (map (fun P => fold_right Z.add 0%Z (map (fun row => nth k row 0%Z) P)) snapshots).

End ClosedForms.

(** A matrix with [n] rows of [d] entries. *)
Definition shape {A : Type} (n d : nat) (m : list (list A)) : Prop :=
  length m = n /\ Forall (fun row => length row = d) m.

Definition binary (b : Z) : Prop := b = 0%Z \/ b = 1%Z.

(** A sequence of fitness values that never goes up. *)
Definition non_increasing (l : list efloat) : Prop :=
  forall i j, (i <= j < length l)%nat -> efloat_le (nth j l PosInf) (nth i l PosInf).

(** A recorded population: [n] rows of [d] bits. *)
Definition snapshot_ok (n d : nat) (P : list (list Z)) : Prop :=
  shape n d P /\ Forall (Forall binary) P.

(** What holds of the loop state after [k] iterations. *)
Definition loop_invariant (n d k : nat) (st : state) : Prop :=
  shape n d (X st) /\
  shape n d (V st) /\
  length (all_positions st) = k /\
  Forall (snapshot_ok n d) (all_positions st) /\
  feature_selection_counter st = map (column_total (all_positions st)) (seq 0 d) /\
  length (history_fitness st) = k /\
  length (history_num_features st) = k /\
  non_increasing (history_fitness st) /\
  Forall (fun h => efloat_le (best_fitness st) h) (history_fitness st).

(** [accuracy_score] is a ratio of counts: the number of test rows the
    classifier labels correctly over the number [N] of test rows. *)
Definition count_ratio (N : Z) (accuracy : list nat -> R) : Prop :=
  forall selected, exists k : Z, accuracy selected = IZR k / IZR N.

(** The populations whose fitness the loop has computed so far: the initial
    one and all recorded ones but the last. *)
Definition evaluated_populations (X0 : list (list Z))
           (snapshots : list (list (list Z))) : list (list (list Z)) :=
  removelast (X0 :: snapshots).

(** What the best-so-far tracker and the bookkeeping keep after [k]
    iterations of a run that started from population [X0]. *)
Definition tracker_invariant (accuracy : list nat -> R) (X0 : list (list Z))
           (n d k : nat) (st : state) : Prop :=
  X st = last (all_positions st) X0 /\
  draws st = (n * d + k * (n * (n - 1) + 2 * (n * d)))%nat /\
  Forall (shape n d) (X0 :: all_positions st) /\
  (forall P x, In P (evaluated_populations X0 (all_positions st)) -> In x P ->
     efloat_le (best_fitness st) (Finite (evaluate_solution accuracy x))) /\
  match best_position st with
  | None => best_fitness st = PosInf /\ k = 0%nat
  | Some p =>
      best_fitness st = Finite (evaluate_solution accuracy p) /\
      exists P, In P (evaluated_populations X0 (all_positions st)) /\ In p P
  end /\
  last (history_fitness st) PosInf = best_fitness st /\
  last (history_num_features st) 0%nat = count_nonzero_position (best_position st) /\
  Forall (fun c => (c <= d)%nat) (history_num_features st).

(** What a run with a single agent keeps after [k] iterations: zero
    velocity, the position of the generator, and every recorded bit decided
    by its own draw against the sigmoid of 0. *)
Definition single_agent_invariant (rand : nat -> R) (d k : nat) (st : state) : Prop :=
  V st = [Np.zeros d] /\
  draws st = (d + k * (2 * d))%nat /\
  forall t b, (t < k)%nat -> (b < d)%nat ->
    nth b (nth 0 (nth t (all_positions st) []) []) 0%Z
    = Np.astype_int (Np.gt (sigmoid 0) (rand (d + t * (2 * d) + d + b)%nat)).

(** ** Concrete generators and classifiers used in examples *)

Definition half_tape : nat -> R := fun _ => 0.5.

Definition zero_then_half : nat -> R :=
  fun k => match k with O => 0 | S _ => 0.5 end.

Definition ones_tape : nat -> Z := fun _ => 1%Z.

Definition perfect_classifier : list nat -> R := fun _ => 1.


(** * Properties *)

(** ** Generic facts on lists *)

Lemma map2_length {A B C : Type} (f : A -> B -> C) (u : list A) (v : list B) :
  length (Np.map2 f u v) = Nat.min (length u) (length v).
Proof.
  revert v; induction u as [|x u IH]; intros [|y v]; simpl; auto.
Qed.

Lemma map2_nth {A B C : Type} (f : A -> B -> C) (u : list A) (v : list B)
      (k : nat) (da : A) (db : B) (dc : C) :
  (k < length u)%nat -> (k < length v)%nat ->
  nth k (Np.map2 f u v) dc = f (nth k u da) (nth k v db).
Proof.
  revert v k; induction u as [|x u IH]; intros [|y v] [|k]; simpl; intros; try lia; auto.
  apply IH; lia.
Qed.

Lemma sum_nonneg (l : list R) :
  Forall (fun x => 0 <= x) l -> 0 <= Np.sum l.
Proof.
  induction 1; simpl; lra.
Qed.

Lemma sum_ge_member (l : list R) (x : R) :
  Forall (fun y => 0 <= y) l -> In x l -> x <= Np.sum l.
Proof.
  induction 1 as [|y l Hy Hl IH]; simpl; intros Hin; [contradiction|].
  pose proof (sum_nonneg l Hl).
  destruct Hin as [->|Hin]; [lra|]. specialize (IH Hin). lra.
Qed.

Lemma sum_map_div (l : list R) (c : R) :
  Np.sum (map (fun x => x / c) l) = Np.sum l / c.
Proof.
  induction l as [|x l IH]; simpl.
  - unfold Rdiv; ring.
  - rewrite IH. unfold Rdiv; ring.
Qed.

Lemma sum_all_zero (l : list R) :
  Forall (fun x => x = 0) l -> Np.sum l = 0.
Proof.
  induction 1 as [|x l Hx Hl IH]; simpl; [reflexivity|]. rewrite Hx, IH. ring.
Qed.

(** ** Minimum and maximum of the fitness vector *)

Lemma fold_Rmin_le (l : list R) (x : R) :
  fold_left Rmin l x <= x /\ Forall (fun y => fold_left Rmin l x <= y) l.
Proof.
  revert x; induction l as [|y l IH]; intros x; simpl.
  - split; [lra|constructor].
  - destruct (IH (Rmin x y)) as [H1 H2].
    pose proof (Rmin_l x y). pose proof (Rmin_r x y).
    split; [lra|]. constructor; [lra|assumption].
Qed.

Lemma fold_Rmin_in (l : list R) (x : R) :
  In (fold_left Rmin l x) (x :: l).
Proof.
  revert x; induction l as [|y l IH]; intros x; simpl.
  - now left.
  - destruct (IH (Rmin x y)) as [H|H].
    + unfold Rmin in H at 1. destruct (Rle_dec x y); [left|right; left]; exact H.
    + right; right; exact H.
Qed.

Lemma fold_Rmax_ge (l : list R) (x : R) :
  x <= fold_left Rmax l x /\ Forall (fun y => y <= fold_left Rmax l x) l.
Proof.
  revert x; induction l as [|y l IH]; intros x; simpl.
  - split; [lra|constructor].
  - destruct (IH (Rmax x y)) as [H1 H2].
    pose proof (Rmax_l x y). pose proof (Rmax_r x y).
    split; [lra|]. constructor; [lra|assumption].
Qed.

Lemma min_spec (l : list R) (best : R) :
  Np.min l = Some best -> In best l /\ Forall (fun y => best <= y) l.
Proof.
  destruct l as [|x l]; simpl; [discriminate|]. intros [= <-].
  split; [apply fold_Rmin_in|].
  destruct (fold_Rmin_le l x) as [H1 H2]. constructor; assumption.
Qed.

Lemma max_spec (l : list R) (worst : R) :
  Np.max l = Some worst -> Forall (fun y => y <= worst) l.
Proof.
  destruct l as [|x l]; simpl; [discriminate|]. intros [= <-].
  destruct (fold_Rmax_ge l x) as [H1 H2]. constructor; assumption.
Qed.

Lemma min_max_identical (l : list R) (f : R) :
  l <> [] -> Forall (eq f) l -> Np.min l = Some f /\ Np.max l = Some f.
Proof.
  intros Hne Hall. destruct l as [|x l]; [congruence|].
  inversion Hall as [|? ? Hx Hl]; subst x. simpl.
  assert (Hmin : forall l', Forall (eq f) l' -> fold_left Rmin l' f = f).
  { induction 1 as [|y l' Hy _ IH]; simpl; [reflexivity|]. subst y.
    unfold Rmin at 2. destruct (Rle_dec f f); exact IH. }
  assert (Hmax : forall l', Forall (eq f) l' -> fold_left Rmax l' f = f).
  { induction 1 as [|y l' Hy _ IH]; simpl; [reflexivity|]. subst y.
    unfold Rmax at 2. destruct (Rle_dec f f); exact IH. }
  rewrite Hmin, Hmax by assumption. split; reflexivity.
Qed.

(** ** Mass computer *)

Lemma eps_pos : 0 < eps.
Proof. unfold eps; lra. Qed.

Lemma raw_mass_identical (l : list R) (f : R) :
  Forall (eq f) l -> Forall (fun x => x = 0) (raw_mass l f f).
Proof.
  unfold raw_mass. induction 1 as [|y l Hy _ IH]; simpl; constructor; [|exact IH].
  subst y. unfold Rdiv. ring.
Qed.

Lemma mass_of_zero (m : list R) :
  Forall (fun x => x = 0) m -> Forall (fun x => x = 0) (mass m).
Proof.
  unfold mass. generalize (mass_denominator m).
  intros c. induction 1 as [|y l Hy _ IH]; simpl; constructor; [|apply IH].
  subst y. unfold Rdiv. ring.
Qed.

Lemma raw_mass_nonneg (fitness : list R) (best worst : R) :
  Forall (fun y => y <= worst) fitness ->
  eps < worst - best ->
  Forall (fun x => 0 <= x) (raw_mass fitness best worst).
Proof.
  intros Hall Hspread. unfold raw_mass, raw_mass_denominator.
  induction Hall as [|y l Hy _ IH]; simpl; constructor; [|exact IH].
  replace ((y - worst) / (best - worst + eps))
    with ((worst - y) / (worst - best - eps)) by (field; lra).
  apply Rmult_le_pos; [lra|]. left. apply Rinv_0_lt_compat. lra.
Qed.

(** With a fitness spread above [eps] the masses are normalised: each lies
    in [0,1) and their sum misses 1 by less than [eps]. *)
Lemma mass_normalised (fitness : list R) (best worst : R) :
  Np.min fitness = Some best ->
  Np.max fitness = Some worst ->
  eps < worst - best ->
  let m := raw_mass fitness best worst in
  1 < Np.sum m /\
  Forall (fun x => 0 <= x < 1) (mass m) /\
  1 - eps < Np.sum (mass m) < 1.
Proof.
  intros Hmin Hmax Hspread m.
  destruct (min_spec _ _ Hmin) as [Hin Hlo].
  pose proof (max_spec _ _ Hmax) as Hhi.
  pose proof eps_pos as He.
  pose proof (raw_mass_nonneg fitness best worst Hhi Hspread) as Hnn.
  assert (Hbest : In ((best - worst) / raw_mass_denominator best worst) m).
  { unfold m, raw_mass. apply (in_map (fun f => (f - worst) / _)). exact Hin. }
  assert (Hgt : 1 < (best - worst) / raw_mass_denominator best worst).
  { unfold raw_mass_denominator.
    replace ((best - worst) / (best - worst + eps))
      with (1 + eps / (worst - best - eps)) by (field; lra).
    assert (0 < eps / (worst - best - eps)).
    { apply Rmult_lt_0_compat; [lra|]. apply Rinv_0_lt_compat; lra. }
    lra. }
  pose proof (sum_ge_member m _ Hnn Hbest) as Hsum.
  assert (Hs : 1 < Np.sum m) by lra.
  assert (Hden : 0 < mass_denominator m) by (unfold mass_denominator; lra).
  split; [exact Hs|]. split.
  - unfold mass. apply Forall_forall. intros y Hy.
    apply in_map_iff in Hy. destruct Hy as [x [<- Hx]].
    assert (0 <= x) by (revert Hx; apply Forall_forall; exact Hnn).
    pose proof (sum_ge_member m x Hnn Hx).
    split.
    + apply Rmult_le_pos; [assumption|]. left; apply Rinv_0_lt_compat; assumption.
    + apply Rmult_lt_reg_r with (mass_denominator m); [assumption|].
      unfold Rdiv. rewrite Rmult_assoc, Rinv_l by lra.
      unfold mass_denominator in *. lra.
  - unfold mass. rewrite sum_map_div. unfold mass_denominator in *.
    replace (Np.sum m / (Np.sum m + eps)) with (1 - eps / (Np.sum m + eps))
      by (field; lra).
    assert (0 < eps / (Np.sum m + eps)).
    { apply Rmult_lt_0_compat; [lra|]. apply Rinv_0_lt_compat; lra. }
    assert (eps / (Np.sum m + eps) < eps).
    { apply Rmult_lt_reg_r with (Np.sum m + eps); [lra|].
      unfold Rdiv. rewrite Rmult_assoc, Rinv_l by lra. nra. }
    lra.
Qed.

(** ** Fitness evaluator *)

Lemma count_nonzero_all_zero (v : list Z) :
  Forall (fun b => b = 0%Z) v -> Np.count_nonzero v = 0%nat.
Proof.
  unfold Np.count_nonzero. induction 1 as [|b v Hb _ IH]; simpl; [reflexivity|].
  subst b. simpl. exact IH.
Qed.

Lemma count_nonzero_some_one (v : list Z) :
  Exists (fun b => b = 1%Z) v -> Np.count_nonzero v <> 0%nat.
Proof.
  unfold Np.count_nonzero. induction 1 as [b v Hb|b v _ IH]; simpl.
  - subst b. simpl. discriminate.
  - destruct (b =? 0)%Z; simpl; [exact IH|discriminate].
Qed.

Lemma count_nonzero_binary (v : list Z) (k : nat) :
  Forall (fun b => b = 0%Z \/ b = 1%Z) v ->
  Np.count_nonzero v = length (Np.where_eq1_from k v).
Proof.
  unfold Np.count_nonzero. intros H; revert k.
  induction H as [|b v Hb _ IH]; intros k; simpl; [reflexivity|].
  destruct Hb as [-> | ->]; simpl; rewrite (IH (S k)); reflexivity.
Qed.

Lemma where_eq1_from_spec (v : list Z) (k i : nat) :
  In i (Np.where_eq1_from k v) <->
  (k <= i)%nat /\ nth_error v (i - k) = Some 1%Z.
Proof.
  revert k; induction v as [|b v IH]; intros k; simpl.
  - split; [contradiction|]. intros [_ H]. destruct (i - k)%nat; discriminate.
  - destruct (Z.eqb_spec b 1) as [->|Hb].
    + simpl. rewrite IH. split.
      * intros [<- | [Hle Hn]].
        -- split; [lia|]. now rewrite Nat.sub_diag.
        -- split; [lia|]. replace (i - k)%nat with (S (i - S k)) by lia. exact Hn.
      * intros [Hle Hn]. destruct (Nat.eq_dec k i) as [->|Hne]; [now left|right].
        split; [lia|]. replace (i - k)%nat with (S (i - S k)) in Hn by lia. exact Hn.
    + rewrite IH. split.
      * intros [Hle Hn]. split; [lia|].
        replace (i - k)%nat with (S (i - S k)) by lia. exact Hn.
      * intros [Hle Hn]. destruct (Nat.eq_dec k i) as [->|Hne].
        -- rewrite Nat.sub_diag in Hn. simpl in Hn. congruence.
        -- split; [lia|]. replace (i - k)%nat with (S (i - S k)) in Hn by lia.
           exact Hn.
Qed.

(** C4. On a mask without any feature the evaluator returns the worst fitness
    1.0 at once, without a call to the classifier and whatever the
    classifier would answer; on a binary mask with at least one bit set it
    fits the classifier on exactly the columns whose bit is 1 and returns
    1 - (score - 0.01 * selectedCount / d). *)
Theorem evaluate_solution_sentinel_and_formula
        (knn_accuracy : list nat -> R) (mask : list Z) :
  (Forall (fun b => b = 0%Z) mask ->
     evaluate_solution_steps mask = Return 1.0 /\
     evaluate_solution knn_accuracy mask = 1) /\
  (Forall (fun b => b = 0%Z \/ b = 1%Z) mask ->
   Exists (fun b => b = 1%Z) mask ->
     let selected := Np.where_eq1 mask in
     (forall i, In i selected <-> nth_error mask i = Some 1%Z) /\
     (exists k, evaluate_solution_steps mask = FitPredict selected k) /\
     evaluate_solution knn_accuracy mask =
       1 - (knn_accuracy selected
            - 0.01 * (INR (length selected) / INR (length mask)))).
Proof.
  split.
  - intros Hz. unfold evaluate_solution, evaluate_solution_steps.
    rewrite (count_nonzero_all_zero mask Hz). simpl. split; [reflexivity|lra].
  - intros Hbin Hone selected.
    unfold evaluate_solution, evaluate_solution_steps.
    pose proof (count_nonzero_some_one mask Hone) as Hnz.
    apply Nat.eqb_neq in Hnz. rewrite Hnz. simpl.
    split; [|split].
    + intros i. unfold selected, Np.where_eq1. rewrite where_eq1_from_spec.
      rewrite Nat.sub_0_r. split; [tauto|]. intros H; split; [lia|exact H].
    + eexists. reflexivity.
    + rewrite (count_nonzero_binary mask 0 Hbin). fold (Np.where_eq1 mask).
      fold selected. lra.
Qed.

(** ** Gravitational constant *)

(** C8. G depends on the iteration index only, G(t) = 100 * exp(-20 t / T)
    with T = max_iter, and on 0 <= t < max_iter it is strictly positive and
    non-increasing. *)
Theorem G_positive_nonincreasing (max_iter t : Z) :
  (0 <= t < max_iter)%Z ->
  G max_iter t = 100 * exp (- 20 * (IZR t / IZR max_iter)) /\
  0 < G max_iter t /\
  (forall t', (t <= t' < max_iter)%Z -> G max_iter t' <= G max_iter t).
Proof.
  intros [Ht0 HtT].
  assert (HT : 0 < IZR max_iter) by (apply IZR_lt; lia).
  assert (Hform : forall s, G max_iter s = 100 * exp (- 20 * (IZR s / IZR max_iter))).
  { intros s. unfold G. f_equal. f_equal. rewrite mult_IZR. field. lra. }
  split; [apply Hform|]. split.
  - unfold G. pose proof (exp_pos (IZR (-20 * t) / IZR max_iter)). lra.
  - intros t' [Hle _]. rewrite !Hform.
    apply Rmult_le_compat_l; [lra|].
    assert (Hq : IZR t / IZR max_iter <= IZR t' / IZR max_iter).
    { apply Rmult_le_compat_r; [left; apply Rinv_0_lt_compat; exact HT|].
      apply IZR_le; exact Hle. }
    destruct (Req_dec (IZR t / IZR max_iter) (IZR t' / IZR max_iter)) as [->|Hne].
    + lra.
    + left. apply exp_increasing. lra.
Qed.

(** ** Degenerate fitness vectors *)

(** When every agent has the same fitness, the raw masses are all 0, both
    mass denominators equal [eps] and every mass is 0. *)
Lemma mass_identical_fitness (fitness : list R) (f : R) :
  fitness <> [] ->
  Forall (eq f) fitness ->
  Np.min fitness = Some f /\
  Np.max fitness = Some f /\
  raw_mass_denominator f f = eps /\
  mass_denominator (raw_mass fitness f f) = eps /\
  Forall (fun x => x = 0) (mass (raw_mass fitness f f)).
Proof.
  intros Hne Hall.
  destruct (min_max_identical fitness f Hne Hall) as [Hmin Hmax].
  pose proof (raw_mass_identical fitness f Hall) as Hraw.
  repeat split; try assumption.
  - unfold raw_mass_denominator. ring.
  - unfold mass_denominator. rewrite (sum_all_zero _ Hraw). ring.
  - apply mass_of_zero. exact Hraw.
Qed.

Lemma all_zero_repeat (l : list R) :
  Forall (fun x => x = 0) l -> l = repeat 0 (length l).
Proof.
  induction 1 as [|x l Hx _ IH]; simpl; [reflexivity|]. now rewrite Hx, <- IH.
Qed.

(** C2. When all agents have the same fitness the mass computer gives every
    agent mass 0, so the masses sum to 0 and not to 1.  This is the case in
    every iteration of a run with a single agent, whatever its position, and
    for two agents that both select no feature (fitness 1.0 each). *)
Theorem mass_sum_is_zero_on_identical_fitness (knn_accuracy : list nat -> R) :
  (forall x : list Z,
     mass_of_fitness (map (evaluate_solution knn_accuracy) [x]) = Some [0]) /\
  map (evaluate_solution knn_accuracy) [[0; 0]%Z; [0; 0]%Z] = [1.0; 1.0] /\
  mass_of_fitness (map (evaluate_solution knn_accuracy) [[0; 0]%Z; [0; 0]%Z])
  = Some [0; 0] /\
  Np.sum [0] = 0 /\
  Np.sum [0; 0] = 0 /\
  Np.sum [0; 0] <> 1.
Proof.
  assert (Hgen : forall fitness f, fitness <> [] -> Forall (eq f) fitness ->
            mass_of_fitness fitness = Some (repeat 0 (length fitness))).
  { intros fitness f Hne Hf.
    destruct (mass_identical_fitness fitness f Hne Hf) as (Hmin & Hmax & _ & _ & Hz).
    unfold mass_of_fitness. rewrite Hmin, Hmax.
    rewrite (all_zero_repeat _ Hz). unfold mass, raw_mass.
    now rewrite !length_map. }
  split; [|split; [|split; [|split; [|split]]]].
  - intros x. cbn [map].
    rewrite (Hgen [evaluate_solution knn_accuracy x] (evaluate_solution knn_accuracy x));
      [reflexivity|discriminate|repeat constructor].
  - reflexivity.
  - change (map (evaluate_solution knn_accuracy) [[0; 0]%Z; [0; 0]%Z]) with [1.0; 1.0].
    rewrite (Hgen [1.0; 1.0] 1.0); [reflexivity|discriminate|repeat constructor].
  - simpl. ring.
  - simpl. ring.
  - simpl. lra.
Qed.

(** ** Denominators *)

Lemma norm_nonneg (v : list R) : 0 <= Np.norm v.
Proof. unfold Np.norm. apply sqrt_pos. Qed.

Lemma nth_nonneg (l : list R) (i : nat) :
  Forall (fun x => 0 <= x) l -> 0 <= nth i l 0.
Proof.
  intros H. destruct (Nat.lt_ge_cases i (length l)) as [Hlt|Hge].
  - revert Hlt. generalize i. induction H as [|x l Hx _ IH]; simpl; intros [|k] Hk;
      try lia; [exact Hx|]. apply IH; lia.
  - rewrite nth_overflow by exact Hge. lra.
Qed.

Lemma nth_all_zero (l : list R) (i : nat) :
  Forall (fun x => x = 0) l -> nth i l 0 = 0.
Proof.
  intros H; revert i. induction H as [|x l Hx _ IH]; intros [|k]; simpl; auto.
Qed.

Lemma fold_Rmax_in (l : list R) (x : R) :
  In (fold_left Rmax l x) (x :: l).
Proof.
  revert x; induction l as [|y l IH]; intros x; simpl.
  - now left.
  - destruct (IH (Rmax x y)) as [H|H].
    + unfold Rmax in H at 1. destruct (Rle_dec x y); [right; left|left]; exact H.
    + right; right; exact H.
Qed.

Lemma max_in (l : list R) (worst : R) :
  Np.max l = Some worst -> In worst l.
Proof.
  destruct l as [|x l]; simpl; [discriminate|]. intros [= <-]. apply fold_Rmax_in.
Qed.

(** With an accuracy that is a ratio of counts, every fitness value is a
    multiple of [1 / (100 * N * d)]. *)
Lemma fitness_on_grid (N : Z) (accuracy : list nat -> R) (x : list Z) :
  (0 < N)%Z -> count_ratio N accuracy ->
  exists z : Z,
    evaluate_solution accuracy x
    = IZR z / IZR (100 * N * Z.max 1 (Z.of_nat (length x))).
Proof.
  intros HN Hacc.
  assert (HNr : 0 < IZR N) by (apply IZR_lt; lia).
  unfold evaluate_solution, evaluate_solution_steps.
  destruct (Nat.eqb_spec (Np.count_nonzero x) 0) as [Hz|Hnz]; cbn [run_evaluation].
  - exists (100 * N * Z.max 1 (Z.of_nat (length x)))%Z.
    assert (HD : 0 < IZR (100 * N * Z.max 1 (Z.of_nat (length x))))
      by (apply IZR_lt; lia).
    unfold Rdiv. rewrite Rinv_r by (apply Rgt_not_eq; exact HD). lra.
  - assert (Hlen : (0 < length x)%nat).
    { destruct x; [exfalso; apply Hnz; reflexivity|simpl; lia]. }
    destruct (Hacc (Np.where_eq1 x)) as [k ->].
    rewrite Z.max_r by lia.
    exists (100 * N * Z.of_nat (length x) - 100 * Z.of_nat (length x) * k
            + N * Z.of_nat (Np.count_nonzero x))%Z.
    rewrite !INR_IZR_INZ.
    assert (0 < IZR (Z.of_nat (length x))) by (apply IZR_lt; lia).
    rewrite plus_IZR, minus_IZR, !mult_IZR.
    replace 1.0 with 1 by lra. replace 0.01 with (/ 100) by lra.
    field. lra.
Qed.

Lemma grid_spread (D zb zw : Z) :
  (0 < D)%Z -> (D < 10 ^ 20)%Z -> (zb < zw)%Z ->
  eps < IZR zw / IZR D - IZR zb / IZR D.
Proof.
  intros HD Hsmall Hlt.
  assert (H1 : 0 < IZR D) by (apply IZR_lt; lia).
  assert (H2 : IZR D < 100000000000000000000) by (apply IZR_lt; lia).
  assert (H3 : 1 <= IZR zw - IZR zb).
  { rewrite <- minus_IZR. apply IZR_le. lia. }
  assert (Hu : 0 < / IZR D) by (apply Rinv_0_lt_compat; exact H1).
  assert (Hone : IZR D * / IZR D = 1) by (apply Rinv_r; lra).
  replace (IZR zw / IZR D - IZR zb / IZR D) with ((IZR zw - IZR zb) * / IZR D)
    by (unfold Rdiv; ring).
  assert (He : eps * IZR D < 1) by (unfold eps; lra).
  assert (Heu : eps < / IZR D).
  { replace eps with (eps * IZR D * / IZR D) by (rewrite Rmult_assoc, Hone; ring).
    replace (/ IZR D) with (1 * / IZR D) at 2 by ring.
    apply Rmult_lt_compat_r; assumption. }
  assert (/ IZR D <= (IZR zw - IZR zb) * / IZR D) by nra.
  lra.
Qed.

(** The fitness values of a population are all equal, or their spread is
    above [eps]. *)
Lemma fitness_spread (N : Z) (accuracy : list nat -> R) (n d : nat)
      (X : list (list Z)) (best worst : R) :
  (0 < N)%Z -> count_ratio N accuracy ->
  (100 * N * Z.max 1 (Z.of_nat d) < 10 ^ 20)%Z ->
  shape n d X ->
  Np.min (map (evaluate_solution accuracy) X) = Some best ->
  Np.max (map (evaluate_solution accuracy) X) = Some worst ->
  (best = worst /\ Forall (eq best) (map (evaluate_solution accuracy) X)) \/
  eps < worst - best.
Proof.
  intros HN Hacc Hsmall [_ Hrows] Hmin Hmax.
  destruct (min_spec _ _ Hmin) as [Hbin Hlo].
  pose proof (max_spec _ _ Hmax) as Hhi.
  pose proof (max_in _ _ Hmax) as Hwin.
  assert (Hgrid : forall f, In f (map (evaluate_solution accuracy) X) ->
            exists z : Z, f = IZR z / IZR (100 * N * Z.max 1 (Z.of_nat d))).
  { intros f Hf. apply in_map_iff in Hf. destruct Hf as [x [<- Hx]].
    rewrite Forall_forall in Hrows. rewrite <- (Hrows x Hx).
    now apply fitness_on_grid. }
  destruct (Hgrid best Hbin) as [zb Hzb]. destruct (Hgrid worst Hwin) as [zw Hzw].
  destruct (Z.lt_ge_cases zb zw) as [Hlt|Hge].
  - right. rewrite Hzb, Hzw. apply grid_spread; [lia|exact Hsmall|exact Hlt].
  - left.
    assert (Hwb : worst <= best).
    { rewrite Hzb, Hzw. apply Rmult_le_compat_r.
      - left. apply Rinv_0_lt_compat. apply IZR_lt. lia.
      - apply IZR_le. lia. }
    rewrite Forall_forall in Hlo, Hhi.
    pose proof (Hlo worst Hwin). split; [lra|].
    apply Forall_forall. intros f Hf.
    pose proof (Hlo f Hf). pose proof (Hhi f Hf). lra.
Qed.

(** C9. The denominators of the four divisions are never zero in the
    degenerate cases: with identical fitness for all agents the raw-mass and
    mass-sum denominators both equal [eps] and so does every acceleration
    denominator; the force denominator is positive for any two positions and
    equals [eps] at distance zero; an agent of mass zero has acceleration
    denominator [eps]; and [eps] is not zero.  With a fitness spread above
    [eps] all four are nonzero as well.  Hence, the accuracy being a ratio of
    counts over [N] test rows with [100 * N * dim < 10^20], no iteration on
    a non-empty population divides by zero. *)
Theorem denominators_nonzero :
  eps <> 0 /\
  (forall fitness f, fitness <> [] -> Forall (eq f) fitness ->
     exists best worst,
       Np.min fitness = Some best /\ Np.max fitness = Some worst /\
       raw_mass_denominator best worst = eps /\
       mass_denominator (raw_mass fitness best worst) = eps /\
       forall i, acceleration_denominator (mass (raw_mass fitness best worst)) i = eps) /\
  (forall X i j,
     0 < force_denominator X i j /\
     (distance X i j = 0 -> force_denominator X i j = eps)) /\
  (forall M i, nth i M 0 = 0 -> acceleration_denominator M i = eps) /\
  (forall fitness best worst,
     Np.min fitness = Some best -> Np.max fitness = Some worst ->
     eps < worst - best ->
     raw_mass_denominator best worst <> 0 /\
     mass_denominator (raw_mass fitness best worst) <> 0 /\
     forall i, acceleration_denominator (mass (raw_mass fitness best worst)) i <> 0) /\
  (forall N accuracy n d X,
     (0 < N)%Z -> count_ratio N accuracy ->
     (100 * N * Z.max 1 (Z.of_nat d) < 10 ^ 20)%Z ->
     shape n d X -> (0 < n)%nat ->
     let fitness := map (evaluate_solution accuracy) X in
     exists best worst,
       Np.min fitness = Some best /\ Np.max fitness = Some worst /\
       raw_mass_denominator best worst <> 0 /\
       mass_denominator (raw_mass fitness best worst) <> 0 /\
       (forall i, acceleration_denominator (mass (raw_mass fitness best worst)) i <> 0) /\
       (forall i j, force_denominator X i j <> 0)).
Proof.
  pose proof eps_pos as He.
  assert (Hforce : forall X i j, 0 < force_denominator X i j).
  { intros X i j. unfold force_denominator, distance.
    pose proof (norm_nonneg (map IZR (Np.map2 Z.sub (nth i X []) (nth j X [])))). lra. }
  assert (Hident : forall fitness f, fitness <> [] -> Forall (eq f) fitness ->
            Np.min fitness = Some f /\ Np.max fitness = Some f /\
            raw_mass_denominator f f = eps /\
            mass_denominator (raw_mass fitness f f) = eps /\
            forall i, acceleration_denominator (mass (raw_mass fitness f f)) i = eps).
  { intros fitness f Hne Hall.
    destruct (mass_identical_fitness fitness f Hne Hall) as (Hmin & Hmax & H1 & H2 & Hz).
    repeat split; try assumption.
    intros i. unfold acceleration_denominator. rewrite (nth_all_zero _ i Hz). ring. }
  assert (Hspread : forall fitness best worst,
            Np.min fitness = Some best -> Np.max fitness = Some worst ->
            eps < worst - best ->
            raw_mass_denominator best worst <> 0 /\
            mass_denominator (raw_mass fitness best worst) <> 0 /\
            forall i, acceleration_denominator (mass (raw_mass fitness best worst)) i <> 0).
  { intros fitness best worst Hmin Hmax Hsp.
    destruct (mass_normalised fitness best worst Hmin Hmax Hsp) as (Hs & HM & _).
    split; [unfold raw_mass_denominator; lra|].
    split; [unfold mass_denominator; lra|].
    intros i. unfold acceleration_denominator.
    assert (0 <= nth i (mass (raw_mass fitness best worst)) 0).
    { apply nth_nonneg. eapply Forall_impl; [|exact HM]. simpl; intros; lra. }
    lra. }
  split; [lra|]. split; [|split; [|split; [|split]]].
  - intros fitness f Hne Hall. exists f, f. now apply Hident.
  - intros X i j. split; [apply Hforce|].
    unfold force_denominator. intros ->. ring.
  - intros M i Hi. unfold acceleration_denominator. rewrite Hi. ring.
  - exact Hspread.
  - intros N accuracy n d X HN Hacc Hsmall HX Hn fitness.
    assert (Hne : fitness <> []).
    { unfold fitness. destruct HX as [Hlen _].
      destruct X; simpl in *; [lia|discriminate]. }
    destruct (Np.min fitness) as [best|] eqn:Hmin;
      [|destruct fitness; [congruence|discriminate]].
    destruct (Np.max fitness) as [worst|] eqn:Hmax;
      [|destruct fitness; [congruence|discriminate]].
    exists best, worst. split; [reflexivity|]. split; [reflexivity|].
    assert (Hf : forall i j, force_denominator X i j <> 0).
    { intros i j. pose proof (Hforce X i j). lra. }
    destruct (fitness_spread N accuracy n d X best worst HN Hacc Hsmall HX Hmin Hmax)
      as [[Heq Hall]|Hsp].
    + subst worst.
      destruct (Hident fitness best Hne Hall) as (_ & _ & H1 & H2 & H3).
      rewrite H1, H2. repeat split; try lra; try exact Hf.
      intros i. rewrite H3. lra.
    + destruct (Hspread fitness best worst Hmin Hmax Hsp) as (H1 & H2 & H3).
      repeat split; assumption.
Qed.

(** The two cases of the mass computer on a population: all fitness values
    equal and every mass 0, or a spread above [eps] and normalised masses. *)
Lemma mass_dichotomy (N : Z) (accuracy : list nat -> R) (n d : nat)
      (X : list (list Z)) (best worst : R) :
  (0 < N)%Z -> count_ratio N accuracy ->
  (100 * N * Z.max 1 (Z.of_nat d) < 10 ^ 20)%Z ->
  shape n d X ->
  let fitness := map (evaluate_solution accuracy) X in
  Np.min fitness = Some best -> Np.max fitness = Some worst ->
  let M := mass (raw_mass fitness best worst) in
  (Forall (eq best) fitness /\ Forall (fun x => x = 0) M /\ Np.sum M = 0) \/
  (best < worst /\ Forall (fun x => 0 <= x < 1) M /\ 1 - eps < Np.sum M < 1).
Proof.
  intros HN Hacc Hsmall HX fitness Hmin Hmax M.
  pose proof eps_pos as He.
  destruct (fitness_spread N accuracy n d X best worst HN Hacc Hsmall HX Hmin Hmax)
    as [[Heq Hall]|Hsp].
  - left. subst worst.
    assert (Hne : fitness <> []) by (intros E; rewrite E in Hmin; discriminate).
    destruct (mass_identical_fitness fitness best Hne Hall) as (_ & _ & _ & _ & Hz).
    split; [exact Hall|]. split; [exact Hz|]. now apply sum_all_zero.
  - right. destruct (mass_normalised fitness best worst Hmin Hmax Hsp) as (_ & HM & Hs).
    split; [lra|]. split; assumption.
Qed.

(** ** Shapes of the matrices *)

Lemma nth_map_seq {A : Type} (f : nat -> A) (n i : nat) (d : A) :
  (i < n)%nat -> nth i (map f (seq 0 n)) d = f i.
Proof.
  intros Hi. rewrite (nth_indep _ d (f 0%nat)) by (rewrite length_map, length_seq; exact Hi).
  rewrite map_nth, seq_nth by exact Hi. reflexivity.
Qed.

Lemma shape_row {A : Type} (n d : nat) (m : list (list A)) (i : nat) :
  shape n d m -> (i < n)%nat -> length (nth i m []) = d.
Proof.
  intros [Hlen Hrows] Hi. rewrite Forall_forall in Hrows.
  apply Hrows. apply nth_In. lia.
Qed.

Lemma shape_map_seq {A : Type} (f : nat -> nat -> A) (n d : nat) :
  shape n d (map (fun i => map (f i) (seq 0 d)) (seq 0 n)).
Proof.
  split.
  - now rewrite length_map, length_seq.
  - apply Forall_forall. intros row Hrow. apply in_map_iff in Hrow.
    destruct Hrow as [i [<- _]]. now rewrite length_map, length_seq.
Qed.

Lemma shape_map2 {A B C : Type} (f : A -> B -> C) (n d : nat)
      (u : list (list A)) (v : list (list B)) :
  shape n d u -> shape n d v -> shape n d (Np.map2 (Np.map2 f) u v).
Proof.
  intros [Hu Hru] [Hv Hrv]. split.
  - rewrite map2_length. lia.
  - clear Hu Hv. revert v Hrv. induction Hru as [|x u Hx _ IH]; intros v Hrv.
    + constructor.
    + destruct Hrv as [|y v Hy Hrv]; simpl; constructor.
      * rewrite map2_length. lia.
      * apply IH. exact Hrv.
Qed.

Lemma shape_map {A B : Type} (f : A -> B) (n d : nat) (u : list (list A)) :
  shape n d u -> shape n d (map (map f) u).
Proof.
  intros [Hu Hru]. split.
  - now rewrite length_map.
  - apply Forall_map. eapply Forall_impl; [|exact Hru].
    simpl. intros row Hrow. now rewrite length_map.
Qed.

Lemma map2_entry {A B C : Type} (f : A -> B -> C) (n d : nat)
      (u : list (list A)) (v : list (list B)) (i k : nat) (da : A) (db : B) (dc : C) :
  shape n d u -> shape n d v -> (i < n)%nat -> (k < d)%nat ->
  nth k (nth i (Np.map2 (Np.map2 f) u v) []) dc
  = f (nth k (nth i u []) da) (nth k (nth i v []) db).
Proof.
  intros Hu Hv Hi Hk.
  rewrite (map2_nth (Np.map2 f) u v i [] []) by (destruct Hu, Hv; lia).
  apply map2_nth.
  - rewrite (shape_row n d u i Hu Hi). exact Hk.
  - rewrite (shape_row n d v i Hv Hi). exact Hk.
Qed.

Section RandomMatrix.

Variable rand : nat -> R.

Lemma random_rand_matrix_shape (n d c : nat) :
  shape n d (fst (random_rand_matrix rand n d c)).
Proof. apply shape_map_seq. Qed.

Lemma random_rand_matrix_entry (n d c i k : nat) :
  (i < n)%nat -> (k < d)%nat ->
  nth k (nth i (fst (random_rand_matrix rand n d c)) []) 0 = rand (c + i * d + k)%nat.
Proof.
  intros Hi Hk. simpl.
  rewrite (nth_map_seq (fun i => map (fun k => rand (c + i * d + k)%nat) (seq 0 d)))
    by exact Hi.
  now rewrite nth_map_seq.
Qed.

End RandomMatrix.

Lemma matrix_index_injective (d i k i' k' : nat) :
  (k < d)%nat -> (k' < d)%nat -> (i * d + k = i' * d + k')%nat -> i = i' /\ k = k'.
Proof.
  intros Hk Hk' Heq.
  assert (i = i') by nia. subst i'. split; [reflexivity|lia].
Qed.

(** ** Velocity update *)

(** C1 (as amended). The inertia factor is drawn per agent and per
    coordinate: entry [k] of agent [i]'s new velocity is
    [r_ik * V[i][k] + a[i][k]], where [r_ik] is a draw in [0,1) of its own,
    different coordinates using different draws. *)
Theorem velocity_update_per_coordinate
        (rand : nat -> R) (n d : nat) (V a : list (list R)) (c : nat) :
  (forall k, 0 <= rand k < 1) ->
  shape n d V -> shape n d a ->
  let V' := fst (update_velocity rand n d V a c) in
  snd (update_velocity rand n d V a c) = (c + n * d)%nat /\
  shape n d V' /\
  (forall i k, (i < n)%nat -> (k < d)%nat ->
     let r := rand (c + (i * d + k))%nat in
     0 <= r < 1 /\
     nth k (nth i V' []) 0 = r * nth k (nth i V []) 0 + nth k (nth i a []) 0) /\
  (forall i k i' k', (k < d)%nat -> (k' < d)%nat ->
     (c + (i * d + k) = c + (i' * d + k'))%nat -> i = i' /\ k = k').
Proof.
  intros Hrand HV Ha V'.
  pose proof (random_rand_matrix_shape rand n d c) as Hr.
  assert (Hrv : shape n d (Np.map2 (Np.map2 Rmult) (fst (random_rand_matrix rand n d c)) V))
    by (apply shape_map2; assumption).
  split; [reflexivity|]. split; [|split].
  - unfold V', update_velocity, bind, ret. simpl. apply shape_map2; assumption.
  - intros i k Hi Hk r. split; [apply Hrand|].
    unfold V', update_velocity, bind, ret. cbn [fst random_rand_matrix].
    change (map _ (seq 0 n)) with (fst (random_rand_matrix rand n d c)).
    rewrite (map2_entry Rplus n d _ a i k 0 0 0 Hrv Ha Hi Hk).
    rewrite (map2_entry Rmult n d _ V i k 0 0 0 Hr HV Hi Hk).
    rewrite random_rand_matrix_entry by assumption.
    unfold r. now rewrite Nat.add_assoc.
  - intros i k i' k' Hk Hk' Heq. apply (matrix_index_injective d); [assumption..|lia].
Qed.

(** ** Force accumulation and acceleration *)

Section ForceLoops.

Variable rand : nat -> R.
Variable Gt : R.
Variable M : list R.
Variable X : list (list Z).
Variables n d : nat.
Hypothesis HX : shape n d X.

Lemma force_length (i j : nat) :
  (i < n)%nat -> (j < n)%nat -> length (force Gt M X i j) = d.
Proof.
  intros Hi Hj. unfold force. rewrite length_map, map2_length.
  rewrite (shape_row n d X i HX Hi), (shape_row n d X j HX Hj). lia.
Qed.

Lemma force_entry (i j k : nat) :
  (i < n)%nat -> (j < n)%nat -> (k < d)%nat ->
  nth k (force Gt M X i j) 0 = pairwise_force Gt M X i j k.
Proof.
  intros Hi Hj Hk. unfold force, pairwise_force, force_denominator.
  set (g := fun dx : Z => Gt * nth i M 0 * nth j M 0 * IZR dx / (distance X i j + eps)).
  assert (Hlen : length (Np.map2 Z.sub (nth j X []) (nth i X [])) = d).
  { rewrite map2_length, (shape_row n d X i HX Hi), (shape_row n d X j HX Hj). lia. }
  rewrite (nth_indep _ 0 (g 0%Z)) by (rewrite length_map, Hlen; exact Hk).
  rewrite map_nth.
  rewrite (map2_nth Z.sub _ _ k 0%Z 0%Z 0%Z)
    by (rewrite ?(shape_row n d X i HX Hi), ?(shape_row n d X j HX Hj); exact Hk).
  unfold g. rewrite minus_IZR. reflexivity.
Qed.

Lemma cursor_offset_skip (s : nat) : cursor_offset s (S s) = cursor_offset s s.
Proof.
  unfold cursor_offset. rewrite Nat.leb_refl. destruct (Nat.leb_spec (S s) s); lia.
Qed.

Lemma cursor_offset_draw (i s : nat) :
  i <> s -> cursor_offset i (S s) = S (cursor_offset i s).
Proof.
  intros Hne. unfold cursor_offset.
  destruct (Nat.leb_spec s i), (Nat.leb_spec (S s) i); lia.
Qed.

Lemma cursor_offset_pair (i s : nat) :
  i <> s -> cursor_offset i s = if (s <? i)%nat then s else (s - 1)%nat.
Proof.
  intros Hne. unfold cursor_offset.
  destruct (Nat.leb_spec s i), (Nat.ltb_spec s i); lia.
Qed.

Lemma inner_loop_cursor (c_row i : nat) :
  (i < n)%nat ->
  forall len s total_force,
    (s + len <= n)%nat -> length total_force = d ->
    let res := inner_loop rand Gt M X i (seq s len) total_force
                          (c_row + cursor_offset i s)%nat in
    length (fst res) = d /\
    snd res = (c_row + cursor_offset i (s + len))%nat.
Proof.
  intros Hi. induction len as [|len IH]; intros s tot Hs Htot; simpl.
  - rewrite Nat.add_0_r. split; [exact Htot|reflexivity].
  - replace (s + S len)%nat with (S s + len)%nat by lia.
    destruct (Nat.eqb_spec i s) as [->|Hne]; simpl.
    + rewrite <- cursor_offset_skip. apply IH; [lia|exact Htot].
    + unfold bind, random_rand.
      rewrite <- Nat.add_succ_r, <- cursor_offset_draw by exact Hne.
      apply IH; [lia|].
      rewrite map2_length, length_map, Htot, force_length by lia. lia.
Qed.

Lemma inner_loop_entry (c_row i k : nat) :
  (i < n)%nat -> (k < d)%nat ->
  forall len s total_force,
    (s + len <= n)%nat -> length total_force = d ->
    nth k (fst (inner_loop rand Gt M X i (seq s len) total_force
                           (c_row + cursor_offset i s)%nat)) 0
    = nth k total_force 0
      + Np.sum (map (fun j => if Nat.eqb i j then 0
                              else rand (c_row + (if j <? i then j else j - 1))%nat
                                   * pairwise_force Gt M X i j k)
                    (seq s len)).
Proof.
  intros Hi Hk. induction len as [|len IH]; intros s tot Hs Htot; simpl.
  - lra.
  - destruct (Nat.eqb_spec i s) as [->|Hne]; simpl.
    + rewrite <- cursor_offset_skip. rewrite IH by (lia || exact Htot). lra.
    + unfold bind, random_rand.
      rewrite <- Nat.add_succ_r, <- cursor_offset_draw by exact Hne.
      assert (Hf : length (force Gt M X i s) = d) by (apply force_length; lia).
      rewrite IH; [|lia|rewrite map2_length, length_map, Htot, Hf; lia].
      rewrite (map2_nth Rplus tot _ k 0 0 0)
        by (rewrite ?length_map, ?Htot, ?Hf; exact Hk).
      set (r := rand (c_row + cursor_offset i s)%nat).
      rewrite (nth_indep (map (Rmult r) (force Gt M X i s)) 0 (r * 0))
        by (rewrite length_map, Hf; exact Hk).
      rewrite (map_nth (Rmult r)).
      rewrite force_entry by lia.
      unfold r. rewrite (cursor_offset_pair i s Hne). lra.
Qed.

Lemma zeros_entry (k : nat) : nth k (Np.zeros d) 0 = 0.
Proof.
  unfold Np.zeros. destruct (Nat.lt_ge_cases k d).
  - now rewrite nth_repeat_lt.
  - rewrite nth_overflow; [reflexivity|]. now rewrite repeat_length.
Qed.

(** Row [i] of the force loops, started at draw [c + i * (n - 1)]. *)
Lemma inner_loop_row (c i : nat) :
  (i < n)%nat ->
  let res := inner_loop rand Gt M X i (seq 0 n) (Np.zeros d) (c + i * (n - 1))%nat in
  length (fst res) = d /\
  snd res = (c + S i * (n - 1))%nat /\
  forall k, (k < d)%nat -> nth k (fst res) 0 = total_force_on rand Gt M X n c i k.
Proof.
  intros Hi.
  assert (H0 : (c + i * (n - 1) = c + i * (n - 1) + cursor_offset i 0)%nat)
    by (unfold cursor_offset; simpl; lia).
  rewrite H0.
  destruct (inner_loop_cursor (c + i * (n - 1)) i Hi n 0 (Np.zeros d)
              ltac:(lia) ltac:(apply repeat_length)) as [H1 H2].
  split; [exact H1|]. split.
  - rewrite H2. unfold cursor_offset. simpl. destruct (Nat.leb_spec n i); lia.
  - intros k Hk.
    rewrite (inner_loop_entry (c + i * (n - 1)) i k Hi Hk n 0 (Np.zeros d))
      by (lia || apply repeat_length).
    rewrite zeros_entry. unfold total_force_on, pair_draw. lra.
Qed.

(** The rows [s], ..., [s + len - 1] of the acceleration matrix. *)
Lemma outer_loop_seq (c : nat) :
  forall len s, (s + len <= n)%nat ->
    let res := outer_loop rand Gt M X n d (seq s len) (c + s * (n - 1))%nat in
    shape len d (fst res) /\
    snd res = (c + (s + len) * (n - 1))%nat /\
    forall i k, (i < len)%nat -> (k < d)%nat ->
      nth k (nth i (fst res) []) 0
      = total_force_on rand Gt M X n c (s + i) k / acceleration_denominator M (s + i).
Proof.
  induction len as [|len IH]; intros s Hs; simpl.
  - rewrite Nat.add_0_r. repeat split; [constructor|]. intros i k Hi; lia.
  - unfold bind, ret.
    destruct (inner_loop_row c s ltac:(lia)) as (Hl & Hc & He).
    destruct (inner_loop rand Gt M X s (seq 0 n) (Np.zeros d) (c + s * (n - 1))%nat)
      as [tf c1] eqn:Hinner.
    simpl in Hl, Hc, He. subst c1.
    specialize (IH (S s) ltac:(lia)). simpl in IH.
    destruct (outer_loop rand Gt M X n d (seq (S s) len) (c + (n - 1 + s * (n - 1)))%nat)
      as [rest c2] eqn:Houter.
    simpl in IH. destruct IH as ((Hlen & Hrows) & Hc2 & Hent).
    simpl. split; [|split].
    + split; [simpl; lia|]. constructor; [now rewrite length_map|exact Hrows].
    + rewrite Hc2. lia.
    + intros [|i] k Hi Hk.
      * rewrite Nat.add_0_r. simpl.
        set (g := fun f : R => f / acceleration_denominator M s).
        rewrite (nth_indep _ 0 (g 0)) by (rewrite length_map, Hl; exact Hk).
        rewrite (map_nth g). unfold g. now rewrite He.
      * simpl. rewrite Hent by lia. now rewrite Nat.add_succ_r.
Qed.

End ForceLoops.

Lemma pair_draw_range (n c i j : nat) :
  (i < n)%nat -> (j < n)%nat -> i <> j ->
  (c <= pair_draw n c i j < c + n * (n - 1))%nat.
Proof.
  intros Hi Hj Hne. unfold pair_draw.
  destruct (Nat.ltb_spec j i); nia.
Qed.

Lemma pair_draw_injective (n c i j i' j' : nat) :
  (i < n)%nat -> (j < n)%nat -> i <> j ->
  (i' < n)%nat -> (j' < n)%nat -> i' <> j' ->
  pair_draw n c i j = pair_draw n c i' j' -> i = i' /\ j = j'.
Proof.
  intros Hi Hj Hne Hi' Hj' Hne'. unfold pair_draw.
  destruct (Nat.ltb_spec j i), (Nat.ltb_spec j' i'); intros Heq;
    (assert (i = i') by nia); subst i'; split; try reflexivity; lia.
Qed.

Lemma list_as_map_seq {A : Type} (l : list A) (d0 : A) :
  l = map (fun k => nth k l d0) (seq 0 (length l)).
Proof.
  apply (nth_ext _ _ d0 d0).
  - now rewrite length_map, length_seq.
  - intros k Hk. now rewrite nth_map_seq.
Qed.

(** [distance] is the Euclidean distance of the two positions. *)
Lemma distance_euclidean (n d : nat) (X : list (list Z)) (i j : nat) :
  shape n d X -> (i < n)%nat -> (j < n)%nat ->
  distance X i j
  = sqrt (Np.sum (map (fun k => (IZR (nth k (nth i X []) 0%Z)
                                 - IZR (nth k (nth j X []) 0%Z))
                                * (IZR (nth k (nth i X []) 0%Z)
                                   - IZR (nth k (nth j X []) 0%Z)))
                      (seq 0 d))).
Proof.
  intros HX Hi Hj. unfold distance, Np.norm. f_equal. f_equal.
  set (l := Np.map2 Z.sub (nth i X []) (nth j X [])).
  assert (Hl : length l = d).
  { unfold l. rewrite map2_length, (shape_row n d X i HX Hi), (shape_row n d X j HX Hj).
    lia. }
  rewrite map_map. rewrite (list_as_map_seq l 0%Z) at 1. rewrite map_map, Hl.
  apply map_ext_in. intros k Hk. apply in_seq in Hk.
  unfold l. rewrite (map2_nth Z.sub _ _ k 0%Z 0%Z 0%Z)
    by (rewrite ?(shape_row n d X i HX Hi), ?(shape_row n d X j HX Hj); lia).
  rewrite minus_IZR. reflexivity.
Qed.

(** C7. For agents [i <> j] the force of [j] on [i] is
    [G * M_i * M_j * (x_j - x_i) / (R_ij + eps)] with [R_ij] the Euclidean
    distance of the two positions; it enters the total force of [i] scaled
    by a draw in [0,1) that belongs to the ordered pair [(i, j)] alone; and
    the acceleration of [i] is that total divided by [M_i + eps]. *)
Theorem acceleration_from_randomised_pairwise_forces
        (rand : nat -> R) (Gt : R) (M : list R) (X : list (list Z)) (n d c : nat) :
  (forall k, 0 <= rand k < 1) ->
  shape n d X ->
  let res := accelerations rand Gt M X n d c in
  shape n d (fst res) /\
  snd res = (c + n * (n - 1))%nat /\
  (forall i k, (i < n)%nat -> (k < d)%nat ->
     nth k (nth i (fst res) []) 0
     = Np.sum (map (fun j => if Nat.eqb i j then 0
                             else rand (pair_draw n c i j)
                                  * (Gt * nth i M 0 * nth j M 0
                                     * (IZR (nth k (nth j X []) 0%Z)
                                        - IZR (nth k (nth i X []) 0%Z))
                                     / (distance X i j + eps)))
                   (seq 0 n))
       / (nth i M 0 + eps)) /\
  (forall i j, (i < n)%nat -> (j < n)%nat -> i <> j ->
     0 <= rand (pair_draw n c i j) < 1 /\
     (c <= pair_draw n c i j < c + n * (n - 1))%nat /\
     distance X i j
     = sqrt (Np.sum (map (fun k => (IZR (nth k (nth i X []) 0%Z)
                                    - IZR (nth k (nth j X []) 0%Z))
                                   * (IZR (nth k (nth i X []) 0%Z)
                                      - IZR (nth k (nth j X []) 0%Z)))
                         (seq 0 d))) /\
     (forall i' j', (i' < n)%nat -> (j' < n)%nat -> i' <> j' ->
        pair_draw n c i j = pair_draw n c i' j' -> i = i' /\ j = j')).
Proof.
  intros Hrand HX res.
  pose proof (outer_loop_seq rand Gt M X n d HX c n 0 ltac:(lia)) as H.
  simpl in H. rewrite Nat.add_0_r in H. fold (accelerations rand Gt M X n d c) in H.
  fold res in H. destruct H as (Hshape & Hcur & Hent).
  split; [exact Hshape|]. split; [exact Hcur|]. split.
  - intros i k Hi Hk. rewrite (Hent i k Hi Hk). reflexivity.
  - intros i j Hi Hj Hne. split; [apply Hrand|]. split; [now apply pair_draw_range|].
    split; [now apply (distance_euclidean n d)|].
    intros i' j' Hi' Hj' Hne'. now apply pair_draw_injective.
Qed.

(** ** Order on fitness values *)

Lemma efloat_le_refl (a : efloat) : efloat_le a a.
Proof. destruct a; simpl; auto. lra. Qed.

Lemma efloat_le_trans (a b c : efloat) :
  efloat_le a b -> efloat_le b c -> efloat_le a c.
Proof. destruct a, b, c; simpl; auto; try contradiction. lra. Qed.

Lemma lt_efloat_le (x : R) (b : efloat) :
  lt_efloat x b = true -> efloat_le (Finite x) b.
Proof.
  destruct b; simpl; auto; [discriminate|].
  destruct (Rlt_dec x r); [lra|discriminate].
Qed.

Lemma non_increasing_snoc (l : list efloat) (b : efloat) :
  non_increasing l ->
  Forall (fun h => efloat_le b h) l ->
  non_increasing (l ++ [b]).
Proof.
  intros Hl Hb i j [Hij Hj]. rewrite length_app in Hj. simpl in Hj.
  destruct (Nat.lt_ge_cases j (length l)) as [Hjl|Hjl].
  - rewrite !app_nth1 by lia. apply Hl. lia.
  - assert (j = length l) by lia. subst j.
    rewrite (app_nth2 l [b] PosInf (n := length l)) by lia.
    rewrite Nat.sub_diag. simpl.
    destruct (Nat.lt_ge_cases i (length l)) as [Hil|Hil].
    + rewrite app_nth1 by lia. rewrite Forall_forall in Hb. apply Hb.
      apply nth_In. exact Hil.
    + assert (i = length l) by lia. subst i.
      rewrite app_nth2 by lia. rewrite Nat.sub_diag. simpl. apply efloat_le_refl.
Qed.

(** ** The best-so-far tracker *)

Lemma track_best_cases (best : R) (k : nat) (st : state) :
  (lt_efloat best (best_fitness st) = true ->
     track_best best k st = (Finite best, Some (nth k (X st) []))) /\
  (lt_efloat best (best_fitness st) = false ->
     track_best best k st = (best_fitness st, best_position st)).
Proof.
  unfold track_best. split; intros ->; reflexivity.
Qed.

Lemma track_best_le (best : R) (k : nat) (st : state) :
  efloat_le (fst (track_best best k st)) (best_fitness st).
Proof.
  unfold track_best. destruct (lt_efloat best (best_fitness st)) eqn:Hlt; simpl.
  - now apply lt_efloat_le.
  - apply efloat_le_refl.
Qed.

(** ** Position update and the selection counter *)

Lemma astype_int_binary (b : bool) : binary (Np.astype_int b).
Proof. destruct b; [right|left]; reflexivity. Qed.

Lemma map2_binary (u v : list R) :
  Forall binary (Np.map2 (fun s x => Np.astype_int (Np.gt s x)) u v).
Proof.
  revert v; induction u as [|x u IH]; intros [|y v]; simpl; constructor.
  - apply astype_int_binary.
  - apply IH.
Qed.

Lemma update_position_binary (rand : nat -> R) (n d : nat) (S : list (list R)) (c : nat) :
  Forall (Forall binary) (fst (update_position rand n d S c)).
Proof.
  unfold update_position, bind, ret. simpl.
  generalize (map (fun i => map (fun k => rand (c + i * d + k)%nat) (seq 0 d)) (seq 0 n)).
  induction S as [|row S IH]; intros [|u us]; simpl; constructor.
  - apply map2_binary.
  - apply IH.
Qed.

Lemma update_position_shape (rand : nat -> R) (n d : nat) (S : list (list R)) (c : nat) :
  shape n d S -> shape n d (fst (update_position rand n d S c)).
Proof.
  intros HS. unfold update_position, bind, ret. simpl.
  apply shape_map2; [exact HS|apply shape_map_seq].
Qed.

Lemma update_velocity_shape (rand : nat -> R) (n d : nat) (V a : list (list R)) (c : nat) :
  shape n d V -> shape n d a -> shape n d (fst (update_velocity rand n d V a c)).
Proof.
  intros HV Ha. unfold update_velocity, bind, ret. simpl.
  apply shape_map2; [|exact Ha]. apply shape_map2; [apply shape_map_seq|exact HV].
Qed.

Lemma accelerations_shape (rand : nat -> R) (Gt : R) (M : list R) (X : list (list Z))
      (n d c : nat) :
  shape n d X -> shape n d (fst (accelerations rand Gt M X n d c)).
Proof.
  intros HX.
  pose proof (outer_loop_seq rand Gt M X n d HX c n 0 ltac:(lia)) as H.
  simpl in H. rewrite Nat.add_0_r in H. apply H.
Qed.

Lemma column_total_snoc (snaps : list (list (list Z))) (P : list (list Z)) (k : nat) :
  column_total (snaps ++ [P]) k
  = (column_total snaps k + fold_right Z.add 0 (map (fun row => nth k row 0) P))%Z.
Proof.
  unfold column_total. induction snaps as [|Q snaps IH]; simpl; [lia|].
  rewrite IH. lia.
Qed.

Lemma counter_update (d : nat) (snaps : list (list (list Z))) (P : list (list Z)) :
  Np.map2 Z.add (map (column_total snaps) (seq 0 d)) (Np.sum_axis0 d P)
  = map (column_total (snaps ++ [P])) (seq 0 d).
Proof.
  unfold Np.sum_axis0. generalize (seq 0 d) as ks.
  induction ks as [|k ks IH]; simpl; [reflexivity|].
  rewrite IH, column_total_snoc. reflexivity.
Qed.

Lemma column_sum_bounds (P : list (list Z)) (k : nat) :
  Forall (Forall binary) P ->
  (0 <= fold_right Z.add 0 (map (fun row => nth k row 0) P) <= Z.of_nat (length P))%Z.
Proof.
  induction 1 as [|row P Hrow _ IH]; simpl fold_right; simpl length; [lia|].
  assert (Hb : (0 <= nth k row 0 <= 1)%Z).
  { destruct (Nat.lt_ge_cases k (length row)) as [Hk|Hk].
    - rewrite Forall_forall in Hrow. destruct (Hrow _ (nth_In row 0%Z Hk)); lia.
    - rewrite nth_overflow by exact Hk. lia. }
  lia.
Qed.

Lemma column_total_bounds (n d : nat) (snaps : list (list (list Z))) (k : nat) :
  Forall (snapshot_ok n d) snaps ->
  (0 <= column_total snaps k <= Z.of_nat n * Z.of_nat (length snaps))%Z.
Proof.
  unfold column_total.
  induction 1 as [|P snaps [[Hlen _] Hbin] _ IH]; simpl fold_right; simpl length; [lia|].
  pose proof (column_sum_bounds P k Hbin) as Hc. rewrite Hlen in Hc. lia.
Qed.

(** ** The loop *)

Section Run.

Variable knn_accuracy : list nat -> R.
Variable rand : nat -> R.
Variable randint : nat -> Z.
Variables n d : nat.
Variable max_iter : Z.

Lemma reductions_defined (fitness : list R) :
  fitness <> [] ->
  exists best worst k,
    Np.min fitness = Some best /\ Np.max fitness = Some worst /\
    Np.argmin fitness = Some k.
Proof.
  destruct fitness as [|x l]; [congruence|]. intros _. simpl.
  do 3 eexists. repeat split; reflexivity.
Qed.

(** What one iteration does to the state, given the fitness reductions. *)
Lemma iteration_unfold (t : nat) (st : state) (best worst : R) (k : nat) :
  let fitness := map (evaluate_solution knn_accuracy) (X st) in
  Np.min fitness = Some best -> Np.max fitness = Some worst ->
  Np.argmin fitness = Some k ->
  let M := mass (raw_mass fitness best worst) in
  let a := accelerations rand (G max_iter (Z.of_nat t)) M (X st) n d (draws st) in
  let V' := update_velocity rand n d (V st) (fst a) (snd a) in
  let X' := update_position rand n d (map (map sigmoid) (fst V')) (snd V') in
  let b := track_best best k st in
  iteration knn_accuracy rand n d max_iter t st
  = Ok {| X := fst X';
          V := fst V';
          best_fitness := fst b;
          best_position := snd b;
          history_fitness := history_fitness st ++ [fst b];
          history_num_features :=
            history_num_features st ++ [count_nonzero_position (snd b)];
          feature_selection_counter :=
            Np.map2 Z.add (feature_selection_counter st) (Np.sum_axis0 d (fst X'));
          all_positions := all_positions st ++ [fst X'];
          draws := snd X' |}.
Proof.
  intros fitness Hmin Hmax Harg M a V' X' b.
  unfold iteration. fold fitness. rewrite Hmin, Hmax, Harg.
  fold b. destruct b as [bf bp] eqn:Hb.
  fold M. fold a. destruct a as [av c1] eqn:Ha.
  simpl fst in V'. simpl snd in V'. fold V'. destruct V' as [v' c2] eqn:HV'.
  simpl fst in X'. simpl snd in X'. fold X'. destruct X' as [x' c3] eqn:HX'.
  reflexivity.
Qed.

Lemma iteration_preserves (t k : nat) (st : state) :
  (0 < n)%nat ->
  loop_invariant n d k st ->
  exists st',
    iteration knn_accuracy rand n d max_iter t st = Ok st' /\
    loop_invariant n d (S k) st' /\
    efloat_le (best_fitness st') (best_fitness st).
Proof.
  intros Hn (HX & HV & Hsl & Hsn & Hcnt & Hhl & Hnl & Hni & Hbd).
  assert (Hne : map (evaluate_solution knn_accuracy) (X st) <> []).
  { destruct HX as [Hlen _]. destruct (X st); simpl in *; [lia|discriminate]. }
  destruct (reductions_defined _ Hne) as (best & worst & i & Hmin & Hmax & Harg).
  eexists. split; [apply (iteration_unfold t st best worst i Hmin Hmax Harg)|].
  set (M := mass (raw_mass (map (evaluate_solution knn_accuracy) (X st)) best worst)).
  set (a := accelerations rand (G max_iter (Z.of_nat t)) M (X st) n d (draws st)).
  set (V' := update_velocity rand n d (V st) (fst a) (snd a)).
  set (X' := update_position rand n d (map (map sigmoid) (fst V')) (snd V')).
  assert (Ha : shape n d (fst a)) by (apply accelerations_shape; exact HX).
  assert (HV' : shape n d (fst V')) by (apply update_velocity_shape; assumption).
  assert (HX' : shape n d (fst X')).
  { apply update_position_shape. apply shape_map. exact HV'. }
  pose proof (track_best_le best i st) as Hle.
  split; [|exact Hle].
  unfold loop_invariant; simpl.
  repeat split; try (apply HX' || apply HV').
  - rewrite length_app, Hsl. simpl. lia.
  - apply Forall_app. split; [exact Hsn|]. constructor; [|constructor].
    split; [exact HX'|apply update_position_binary].
  - rewrite Hcnt. apply counter_update.
  - rewrite length_app, Hhl. simpl. lia.
  - rewrite length_app, Hnl. simpl. lia.
  - apply non_increasing_snoc; [exact Hni|].
    eapply Forall_impl; [|exact Hbd]. simpl. intros h Hh.
    eapply efloat_le_trans; [exact Hle|exact Hh].
  - apply Forall_app. split.
    + eapply Forall_impl; [|exact Hbd]. simpl. intros h Hh.
      eapply efloat_le_trans; [exact Hle|exact Hh].
    + constructor; [apply efloat_le_refl|constructor].
Qed.

Lemma loop_preserves (ts : list nat) :
  (0 < n)%nat ->
  forall k st,
    loop_invariant n d k st ->
    exists st',
      loop knn_accuracy rand n d max_iter ts st = Ok st' /\
      loop_invariant n d (k + length ts) st'.
Proof.
  intros Hn. induction ts as [|t ts IH]; intros k st Hinv; simpl.
  - exists st. rewrite Nat.add_0_r. split; [reflexivity|exact Hinv].
  - destruct (iteration_preserves t k st Hn Hinv) as (st1 & Hit & Hinv1 & _).
    rewrite Hit. destruct (IH (S k) st1 Hinv1) as (st2 & Hl & Hinv2).
    exists st2. split; [exact Hl|]. now rewrite Nat.add_succ_r.
Qed.

Lemma repeat_as_map_seq {A : Type} (x : A) (m : nat) :
  repeat x m = map (fun _ => x) (seq 0 m).
Proof.
  generalize 0%nat. induction m as [|m IH]; intros s; simpl; [reflexivity|].
  now rewrite (IH (S s)).
Qed.

Lemma initial_state_invariant : loop_invariant n d 0 (initial_state randint n d).
Proof.
  unfold loop_invariant, initial_state. simpl.
  repeat split; try constructor.
  - now rewrite length_map, length_seq.
  - apply Forall_forall. intros row Hrow. apply in_map_iff in Hrow.
    destruct Hrow as [i [<- _]]. now rewrite length_map, length_seq.
  - apply repeat_length.
  - apply Forall_forall. intros row Hrow. apply repeat_spec in Hrow. subst row.
    apply repeat_length.
  - apply repeat_as_map_seq.
  - intros i j Hij. simpl in Hij. lia.
Qed.

(** A run with at least one agent goes through all its iterations. *)
Lemma run_completes :
  (0 < n)%nat ->
  exists st,
    loop knn_accuracy rand n d max_iter (seq 0 (Z.to_nat max_iter))
         (initial_state randint n d) = Ok st /\
    loop_invariant n d (Z.to_nat max_iter) st.
Proof.
  intros Hn.
  destruct (loop_preserves (seq 0 (Z.to_nat max_iter)) Hn 0 _ initial_state_invariant)
    as (st & Hl & Hinv).
  rewrite length_seq in Hinv. exists st. split; assumption.
Qed.

End Run.

(** ** The entry point *)

Section EntryPoint.

Variable knn_accuracy : list nat -> R.
Variable rand : nat -> R.
Variable randint : nat -> Z.

Lemma iteration_ok_inv (n d : nat) (max_iter : Z) (t : nat) (st st' : state) :
  iteration knn_accuracy rand n d max_iter t st = Ok st' ->
  exists best worst k,
    let fitness := map (evaluate_solution knn_accuracy) (X st) in
    Np.min fitness = Some best /\ Np.max fitness = Some worst /\
    Np.argmin fitness = Some k /\
    (best_fitness st', best_position st') = track_best best k st /\
    history_fitness st' = history_fitness st ++ [best_fitness st'] /\
    Forall (Forall binary) (X st') /\
    all_positions st' = all_positions st ++ [X st'] /\
    feature_selection_counter st'
    = Np.map2 Z.add (feature_selection_counter st) (Np.sum_axis0 d (X st')).
Proof.
  intros Hit.
  destruct (Np.min (map (evaluate_solution knn_accuracy) (X st))) as [best|] eqn:Hmin;
    [|unfold iteration in Hit; rewrite Hmin in Hit; discriminate].
  destruct (Np.max (map (evaluate_solution knn_accuracy) (X st))) as [worst|] eqn:Hmax;
    [|unfold iteration in Hit; rewrite Hmin, Hmax in Hit; discriminate].
  destruct (Np.argmin (map (evaluate_solution knn_accuracy) (X st))) as [k|] eqn:Harg;
    [|unfold iteration in Hit; rewrite Hmin, Hmax, Harg in Hit; discriminate].
  rewrite (iteration_unfold knn_accuracy rand n d max_iter t st best worst k Hmin Hmax Harg)
    in Hit.
  injection Hit as <-. exists best, worst, k. simpl.
  repeat split; try reflexivity; try assumption.
  - now destruct (track_best best k st).
  - apply update_position_binary.
Qed.

Lemma GSA_returns (num_agents max_iter dim : Z) :
  (0 < num_agents)%Z -> (0 <= dim)%Z ->
  exists st,
    loop_invariant (Z.to_nat num_agents) (Z.to_nat dim) (Z.to_nat max_iter) st /\
    GSA_feature_selection knn_accuracy rand randint num_agents max_iter dim
    = Ok {| r_best_position := best_position st;
            r_best_accuracy := one_minus (best_fitness st);
            r_history_fitness := history_fitness st;
            r_history_num_features := history_num_features st;
            r_feature_selection_counter := feature_selection_counter st;
            r_all_positions := all_positions st |}.
Proof.
  intros Hn Hd.
  destruct (run_completes knn_accuracy rand randint (Z.to_nat num_agents)
              (Z.to_nat dim) max_iter ltac:(lia)) as (st & Hloop & Hinv).
  exists st. split; [exact Hinv|].
  unfold GSA_feature_selection.
  destruct (Z.ltb_spec num_agents 0); [lia|].
  destruct (Z.ltb_spec dim 0); [lia|]. simpl.
  now rewrite Hloop.
Qed.

(** C5. The position update produces a matrix of zeros and ones whatever the
    velocities and the draws are; in a run with at least one agent every
    iteration succeeds, and each recorded population (the position matrix
    right after the update of its iteration) has [num_agents] rows of [dim]
    entries, all 0 or 1. *)
Theorem positions_binary_after_every_update (num_agents max_iter dim : Z) :
  (0 < num_agents)%Z -> (0 <= dim)%Z ->
  let n := Z.to_nat num_agents in
  let d := Z.to_nat dim in
  (forall S c, Forall (Forall binary) (fst (update_position rand n d S c))) /\
  (forall t st st',
     iteration knn_accuracy rand n d max_iter t st = Ok st' ->
     Forall (Forall binary) (X st') /\
     all_positions st' = all_positions st ++ [X st']) /\
  exists res,
    GSA_feature_selection knn_accuracy rand randint num_agents max_iter dim = Ok res /\
    length (r_all_positions res) = Z.to_nat max_iter /\
    Forall (fun P => shape n d P /\ Forall (Forall binary) P) (r_all_positions res).
Proof.
  intros Hn Hd n d. split; [|split].
  - intros S c. apply update_position_binary.
  - intros t st st' Hit.
    destruct (iteration_ok_inv n d max_iter t st st' Hit)
      as (best & worst & k & _ & _ & _ & _ & _ & Hbin & Hall & _).
    split; assumption.
  - destruct (GSA_returns num_agents max_iter dim Hn Hd) as (st & Hinv & Hres).
    eexists. split; [exact Hres|]. simpl.
    destruct Hinv as (_ & _ & Hsl & Hsn & _). split; [exact Hsl|exact Hsn].
Qed.

(** C6. The stored best fitness and position are replaced exactly when the
    best fitness of the iteration is strictly below the stored one (an equal
    value leaves them as they are), and the best fitness recorded at the end
    of each iteration never increases along a run. *)
Theorem best_so_far_strict_update (num_agents max_iter dim : Z) :
  (0 < num_agents)%Z -> (0 <= dim)%Z ->
  let n := Z.to_nat num_agents in
  let d := Z.to_nat dim in
  (forall x y, lt_efloat x (Finite y) = true <-> x < y) /\
  (forall t st st',
     iteration knn_accuracy rand n d max_iter t st = Ok st' ->
     exists best k,
       let fitness := map (evaluate_solution knn_accuracy) (X st) in
       Np.min fitness = Some best /\ Np.argmin fitness = Some k /\
       (lt_efloat best (best_fitness st) = true ->
          best_fitness st' = Finite best /\
          best_position st' = Some (nth k (X st) [])) /\
       (lt_efloat best (best_fitness st) = false ->
          best_fitness st' = best_fitness st /\
          best_position st' = best_position st) /\
       history_fitness st' = history_fitness st ++ [best_fitness st']) /\
  exists res,
    GSA_feature_selection knn_accuracy rand randint num_agents max_iter dim = Ok res /\
    length (r_history_fitness res) = Z.to_nat max_iter /\
    non_increasing (r_history_fitness res).
Proof.
  intros Hn Hd n d. split; [|split].
  - intros x y. simpl. destruct (Rlt_dec x y); split; intros;
      try lra; try reflexivity; try discriminate.
  - intros t st st' Hit.
    destruct (iteration_ok_inv n d max_iter t st st' Hit)
      as (best & worst & k & Hmin & _ & Harg & Htb & Hh & _).
    exists best, k. simpl.
    destruct (track_best_cases best k st) as [Hyes Hno].
    split; [exact Hmin|]. split; [exact Harg|]. split; [|split; [|exact Hh]].
    + intros Hlt. rewrite (Hyes Hlt) in Htb. inversion Htb. split; reflexivity.
    + intros Hlt. rewrite (Hno Hlt) in Htb. inversion Htb. split; reflexivity.
  - destruct (GSA_returns num_agents max_iter dim Hn Hd) as (st & Hinv & Hres).
    eexists. split; [exact Hres|]. simpl.
    destruct Hinv as (_ & _ & _ & _ & _ & Hhl & _ & Hni & _).
    split; assumption.
Qed.

(** C10. After a run with [n] agents and [T] iterations, entry [k] of the
    returned selection counter is the number of ones in column [k] summed
    over all [n] rows of all [T] recorded populations (not over the best
    position), so it lies between 0 and [n * T]. *)
Theorem selection_counter_sums_population (num_agents max_iter dim : Z) :
  (0 < num_agents)%Z -> (0 <= dim)%Z ->
  let n := Z.to_nat num_agents in
  let d := Z.to_nat dim in
  let T := Z.to_nat max_iter in
  (forall t st st',
     iteration knn_accuracy rand n d max_iter t st = Ok st' ->
     feature_selection_counter st'
     = Np.map2 Z.add (feature_selection_counter st) (Np.sum_axis0 d (X st'))) /\
  exists res,
    GSA_feature_selection knn_accuracy rand randint num_agents max_iter dim = Ok res /\
    length (r_all_positions res) = T /\
    Forall (fun P => shape n d P /\ Forall (Forall binary) P) (r_all_positions res) /\
    r_feature_selection_counter res
    = map (fun k =>
             fold_right Z.add 0%Z
               (map (fun P => fold_right Z.add 0%Z (map (fun row => nth k row 0%Z) P))
                    (r_all_positions res)))
          (seq 0 d) /\
    Forall (fun c => (0 <= c <= Z.of_nat n * Z.of_nat T)%Z)
           (r_feature_selection_counter res).
Proof.
  intros Hn Hd n d T. split.
  - intros t st st' Hit.
    destruct (iteration_ok_inv n d max_iter t st st' Hit)
      as (best & worst & k & _ & _ & _ & _ & _ & _ & _ & Hc).
    exact Hc.
  - destruct (GSA_returns num_agents max_iter dim Hn Hd) as (st & Hinv & Hres).
    eexists. split; [exact Hres|]. simpl.
    destruct Hinv as (_ & _ & Hsl & Hsn & Hcnt & _).
    split; [exact Hsl|]. split; [exact Hsn|]. split; [exact Hcnt|].
    rewrite Hcnt. apply Forall_map. apply Forall_forall. intros k _.
    fold n d in Hsn. pose proof (column_total_bounds n d _ k Hsn) as Hb.
    fold T in Hsl. rewrite Hsl in Hb. exact Hb.
Qed.

(** C3 (as amended). The entry point does not validate its configuration.
    A negative [num_agents] or [dim] raises [ValueError] when the arrays are
    allocated, before any iteration.  With [max_iter <= 0] (and the other two
    not negative) nothing is raised: the function returns no best position,
    accuracy minus infinity, empty histories and an all-zero counter.  With
    [num_agents = 0] and [max_iter > 0] the first iteration raises
    [ValueError] at the minimum of an empty fitness array.  With [dim = 0]
    and positive [num_agents] and [max_iter] all iterations run and the
    function returns. *)
Theorem configuration_is_not_validated (num_agents max_iter dim : Z) :
  ((num_agents < 0 \/ dim < 0)%Z ->
     GSA_feature_selection knn_accuracy rand randint num_agents max_iter dim
     = Raise (ValueError "negative dimensions are not allowed")) /\
  ((0 <= num_agents)%Z -> (0 <= dim)%Z -> (max_iter <= 0)%Z ->
     GSA_feature_selection knn_accuracy rand randint num_agents max_iter dim
     = Ok {| r_best_position := None;
             r_best_accuracy := NegInf;
             r_history_fitness := [];
             r_history_num_features := [];
             r_feature_selection_counter := repeat 0%Z (Z.to_nat dim);
             r_all_positions := [] |}) /\
  (num_agents = 0%Z -> (0 <= dim)%Z -> (0 < max_iter)%Z ->
     GSA_feature_selection knn_accuracy rand randint num_agents max_iter dim
     = Raise (ValueError
         "zero-size array to reduction operation minimum which has no identity")) /\
  ((0 < num_agents)%Z -> dim = 0%Z -> (0 < max_iter)%Z ->
     exists res,
       GSA_feature_selection knn_accuracy rand randint num_agents max_iter dim = Ok res /\
       length (r_history_fitness res) = Z.to_nat max_iter /\
       length (r_all_positions res) = Z.to_nat max_iter).
Proof.
  split; [|split; [|split]].
  - intros Hneg. unfold GSA_feature_selection.
    destruct (Z.ltb_spec num_agents 0), (Z.ltb_spec dim 0); simpl; try reflexivity. lia.
  - intros Hn Hd HT. unfold GSA_feature_selection.
    destruct (Z.ltb_spec num_agents 0); [lia|].
    destruct (Z.ltb_spec dim 0); [lia|]. simpl.
    replace (Z.to_nat max_iter) with 0%nat by lia. reflexivity.
  - intros -> Hd HT. unfold GSA_feature_selection.
    destruct (Z.ltb_spec dim 0); [lia|]. simpl.
    destruct (Z.to_nat max_iter) as [|m] eqn:Hm; [lia|]. reflexivity.
  - intros Hn -> HT.
    destruct (GSA_returns num_agents max_iter 0 Hn ltac:(lia)) as (st & Hinv & Hres).
    eexists. split; [exact Hres|]. simpl.
    destruct Hinv as (_ & _ & Hsl & _ & _ & Hhl & _). split; assumption.
Qed.

End EntryPoint.

(** ** Concrete runs *)

(** C1, counterexample.  One agent, two coordinates, velocity (1, 1), no
    acceleration; the generator returns 0 and then 0.5.  The new velocity is
    (0, 0.5), which is no multiple of (1, 1): no single scalar per agent
    explains the update. *)
Lemma velocity_update_not_per_agent :
  fst (update_velocity zero_then_half 1 2 [[1; 1]] [[0; 0]] 0%nat) = [[0 * 1 + 0; 0.5 * 1 + 0]] /\
  ~ per_agent_inertia [[1; 1]] [[0; 0]]
      (fst (update_velocity zero_then_half 1 2 [[1; 1]] [[0; 0]] 0%nat)).
Proof.
  split; [reflexivity|].
  intros H. destruct (H 0%nat ltac:(simpl; lia)) as [r [_ Heq]].
  simpl in Heq. injection Heq as H0 H1. lra.
Qed.

(** C3, counterexample.  With [max_iter = 0] the function raises nothing: it
    returns a result without a best position. *)
Lemma zero_iterations_return_silently :
  (0 <= 0)%Z /\
  GSA_feature_selection perfect_classifier half_tape ones_tape 30 0 30
  = Ok {| r_best_position := None;
          r_best_accuracy := NegInf;
          r_history_fitness := [];
          r_history_num_features := [];
          r_feature_selection_counter := repeat 0%Z 30;
          r_all_positions := [] |} /\
  ~ (forall num_agents max_iter dim : Z,
       (num_agents <= 0 \/ max_iter <= 0 \/ dim <= 0)%Z ->
       exists e,
         GSA_feature_selection perfect_classifier half_tape ones_tape
                               num_agents max_iter dim = Raise e).
Proof.
  assert (Hrun : GSA_feature_selection perfect_classifier half_tape ones_tape 30 0 30
                 = Ok {| r_best_position := None;
                         r_best_accuracy := NegInf;
                         r_history_fitness := [];
                         r_history_num_features := [];
                         r_feature_selection_counter := repeat 0%Z 30;
                         r_all_positions := [] |}) by reflexivity.
  split; [lia|]. split; [exact Hrun|].
  intros H. destruct (H 30%Z 0%Z 30%Z ltac:(lia)) as [e He].
  rewrite Hrun in He. discriminate.
Qed.

(** The theorems above at concrete inputs. *)

Lemma half_tape_range : forall k, 0 <= half_tape k < 1.
Proof. intros k. unfold half_tape. lra. Defined.

Lemma evaluate_solution_witness :
  Forall (fun b => b = 0%Z) [0; 0; 0]%Z /\
  evaluate_solution perfect_classifier [0; 0; 0]%Z = 1 /\
  Forall (fun b => b = 0%Z \/ b = 1%Z) [1; 0; 1]%Z /\
  Exists (fun b => b = 1%Z) [1; 0; 1]%Z /\
  evaluate_solution perfect_classifier [1; 0; 1]%Z
  = 1 - (perfect_classifier (Np.where_eq1 [1; 0; 1]%Z)
         - 0.01 * (INR (length (Np.where_eq1 [1; 0; 1]%Z)) / INR (length [1; 0; 1]%Z))).
Proof.
  assert (H0 : Forall (fun b => b = 0%Z) [0; 0; 0]%Z) by (repeat constructor).
  assert (H1 : Forall (fun b => b = 0%Z \/ b = 1%Z) [1; 0; 1]%Z)
    by (repeat constructor; auto).
  assert (H2 : Exists (fun b => b = 1%Z) [1; 0; 1]%Z) by (left; reflexivity).
  split; [exact H0|]. split.
  - exact (proj2 (proj1 (evaluate_solution_sentinel_and_formula
                           perfect_classifier [0; 0; 0]%Z) H0)).
  - split; [exact H1|]. split; [exact H2|].
    exact (proj2 (proj2 (proj2 (evaluate_solution_sentinel_and_formula
                                  perfect_classifier [1; 0; 1]%Z) H1 H2))).
Defined.

Lemma G_witness :
  (0 <= 3 < 40)%Z /\ 0 < G 40 3 /\ G 40 5 <= G 40 3.
Proof.
  assert (H : (0 <= 3 < 40)%Z) by lia.
  split; [exact H|].
  destruct (G_positive_nonincreasing 40 3 H) as (_ & Hpos & Hmono).
  split; [exact Hpos|]. apply Hmono. lia.
Defined.

Lemma perfect_classifier_ratio : count_ratio 171 perfect_classifier.
Proof. intros selected. exists 171%Z. unfold perfect_classifier. lra. Defined.

Lemma denominators_witness :
  ([1; 1] <> [] /\ Forall (eq 1) [1; 1] /\
   exists best worst,
     Np.min [1; 1] = Some best /\ Np.max [1; 1] = Some worst /\
     raw_mass_denominator best worst = eps /\
     mass_denominator (raw_mass [1; 1] best worst) = eps /\
     forall i, acceleration_denominator (mass (raw_mass [1; 1] best worst)) i = eps) /\
  ((0 < 171)%Z /\ count_ratio 171 perfect_classifier /\
   (100 * 171 * Z.max 1 (Z.of_nat 2) < 10 ^ 20)%Z /\
   shape 2 2 [[1; 0]; [0; 0]]%Z /\ (0 < 2)%nat /\
   exists best worst,
     Np.min (map (evaluate_solution perfect_classifier) [[1; 0]; [0; 0]]%Z) = Some best /\
     Np.max (map (evaluate_solution perfect_classifier) [[1; 0]; [0; 0]]%Z) = Some worst /\
     raw_mass_denominator best worst <> 0).
Proof.
  assert (H0 : [1; 1] <> []) by discriminate.
  assert (H1 : Forall (eq 1) [1; 1]) by (repeat constructor).
  assert (HN : (0 < 171)%Z) by lia.
  assert (Hs : (100 * 171 * Z.max 1 (Z.of_nat 2) < 10 ^ 20)%Z) by (vm_compute; reflexivity).
  assert (HX : shape 2 2 [[1; 0]; [0; 0]]%Z) by (split; [reflexivity|repeat constructor]).
  assert (Hn : (0 < 2)%nat) by lia.
  split.
  - split; [exact H0|]. split; [exact H1|].
    exact (proj1 (proj2 denominators_nonzero) [1; 1] 1 H0 H1).
  - split; [exact HN|]. split; [exact perfect_classifier_ratio|]. split; [exact Hs|].
    split; [exact HX|]. split; [exact Hn|].
    destruct (proj2 (proj2 (proj2 (proj2 (proj2 denominators_nonzero))))
                171%Z perfect_classifier 2%nat 2%nat [[1; 0]; [0; 0]]%Z
                HN perfect_classifier_ratio Hs HX Hn)
      as (best & worst & Hmin & Hmax & Hraw & _).
    exists best, worst. split; [exact Hmin|]. split; [exact Hmax|exact Hraw].
Defined.

Lemma velocity_update_witness :
  (forall k, 0 <= half_tape k < 1) /\
  shape 1 2 [[1; 1]] /\ shape 1 2 [[0; 0]] /\
  shape 1 2 (fst (update_velocity half_tape 1 2 [[1; 1]] [[0; 0]] 0%nat)) /\
  nth 1 (nth 0 (fst (update_velocity half_tape 1 2 [[1; 1]] [[0; 0]] 0%nat)) []) 0
  = half_tape 1 * 1 + 0.
Proof.
  assert (HV : shape 1 2 [[1; 1]]) by (split; [reflexivity|repeat constructor]).
  assert (Ha : shape 1 2 [[0; 0]]) by (split; [reflexivity|repeat constructor]).
  split; [exact half_tape_range|]. split; [exact HV|]. split; [exact Ha|].
  destruct (velocity_update_per_coordinate half_tape 1 2 [[1; 1]] [[0; 0]] 0%nat
              half_tape_range HV Ha) as (_ & Hshape & Hent & _).
  split; [exact Hshape|].
  exact (proj2 (Hent 0%nat 1%nat ltac:(lia) ltac:(lia))).
Defined.

Lemma acceleration_witness :
  (forall k, 0 <= half_tape k < 1) /\
  shape 2 2 [[0; 1]; [1; 1]]%Z /\
  shape 2 2 (fst (accelerations half_tape 100 [0.5; 0.5] [[0; 1]; [1; 1]]%Z 2 2 0%nat)) /\
  snd (accelerations half_tape 100 [0.5; 0.5] [[0; 1]; [1; 1]]%Z 2 2 0%nat) = 2%nat.
Proof.
  assert (HX : shape 2 2 [[0; 1]; [1; 1]]%Z) by (split; [reflexivity|repeat constructor]).
  split; [exact half_tape_range|]. split; [exact HX|].
  destruct (acceleration_from_randomised_pairwise_forces
              half_tape 100 [0.5; 0.5] [[0; 1]; [1; 1]]%Z 2 2 0%nat half_tape_range HX)
    as (Hshape & Hcur & _).
  split; [exact Hshape|exact Hcur].
Defined.

Lemma positions_binary_witness :
  (0 < 2)%Z /\ (0 <= 3)%Z /\
  exists res,
    GSA_feature_selection perfect_classifier half_tape ones_tape 2 4 3 = Ok res /\
    length (r_all_positions res) = 4%nat /\
    Forall (fun P => shape 2 3 P /\ Forall (Forall binary) P) (r_all_positions res).
Proof.
  assert (Hn : (0 < 2)%Z) by lia. assert (Hd : (0 <= 3)%Z) by lia.
  split; [exact Hn|]. split; [exact Hd|].
  exact (proj2 (proj2 (positions_binary_after_every_update
                         perfect_classifier half_tape ones_tape 2 4 3 Hn Hd))).
Defined.

Lemma best_so_far_witness :
  (0 < 2)%Z /\ (0 <= 3)%Z /\
  exists res,
    GSA_feature_selection perfect_classifier half_tape ones_tape 2 4 3 = Ok res /\
    length (r_history_fitness res) = 4%nat /\
    non_increasing (r_history_fitness res).
Proof.
  assert (Hn : (0 < 2)%Z) by lia. assert (Hd : (0 <= 3)%Z) by lia.
  split; [exact Hn|]. split; [exact Hd|].
  exact (proj2 (proj2 (best_so_far_strict_update
                         perfect_classifier half_tape ones_tape 2 4 3 Hn Hd))).
Defined.

Lemma selection_counter_witness :
  (0 < 2)%Z /\ (0 <= 3)%Z /\
  exists res,
    GSA_feature_selection perfect_classifier half_tape ones_tape 2 4 3 = Ok res /\
    length (r_feature_selection_counter res) = 3%nat /\
    Forall (fun c => (0 <= c <= 2 * 4)%Z) (r_feature_selection_counter res).
Proof.
  assert (Hn : (0 < 2)%Z) by lia. assert (Hd : (0 <= 3)%Z) by lia.
  split; [exact Hn|]. split; [exact Hd|].
  destruct (proj2 (selection_counter_sums_population
                     perfect_classifier half_tape ones_tape 2 4 3 Hn Hd))
    as (res & Hres & _ & _ & Hcnt & Hb).
  exists res. split; [exact Hres|]. split; [|exact Hb].
  rewrite Hcnt. rewrite length_map, length_seq. reflexivity.
Defined.

Lemma configuration_witness :
  (0 <= 30)%Z /\ (0 <= 30)%Z /\ (0 <= 0)%Z /\
  GSA_feature_selection perfect_classifier half_tape ones_tape 30 0 30
  = Ok {| r_best_position := None;
          r_best_accuracy := NegInf;
          r_history_fitness := [];
          r_history_num_features := [];
          r_feature_selection_counter := repeat 0%Z (Z.to_nat 30);
          r_all_positions := [] |}.
Proof.
  assert (Hn : (0 <= 30)%Z) by lia. assert (HT : (0 <= 0)%Z) by lia.
  split; [exact Hn|]. split; [exact Hn|]. split; [exact HT|].
  exact (proj1 (proj2 (configuration_is_not_validated
                         perfect_classifier half_tape ones_tape 30 0 30)) Hn Hn HT).
Defined.

(** * Further properties of the evaluator and of the engine *)

(** ** Range and ordering of the fitness *)

Lemma count_nonzero_le_length (v : list Z) :
  (Np.count_nonzero v <= length v)%nat.
Proof. unfold Np.count_nonzero. apply filter_length_le. Qed.

Lemma penalty_range (v : list Z) :
  Np.count_nonzero v <> 0%nat ->
  0 < / INR (length v) <= INR (Np.count_nonzero v) / INR (length v) /\
  INR (Np.count_nonzero v) / INR (length v) <= 1.
Proof.
  intros Hnz. pose proof (count_nonzero_le_length v) as Hle.
  assert (Hc : 1 <= INR (Np.count_nonzero v)).
  { change 1 with (INR 1). apply le_INR. lia. }
  assert (Hcd : INR (Np.count_nonzero v) <= INR (length v)) by (apply le_INR; exact Hle).
  assert (Hd : 0 < INR (length v)) by lra.
  assert (Hi : 0 < / INR (length v)) by (apply Rinv_0_lt_compat; exact Hd).
  assert (Hone : INR (length v) * / INR (length v) = 1) by (apply Rinv_r; lra).
  unfold Rdiv. repeat split; try nra.
Qed.

Lemma evaluate_solution_nonzero (accuracy : list nat -> R) (v : list Z) :
  Np.count_nonzero v <> 0%nat ->
  evaluate_solution accuracy v
  = 1 - (accuracy (Np.where_eq1 v)
         - 0.01 * (INR (Np.count_nonzero v) / INR (length v))).
Proof.
  intros Hnz. unfold evaluate_solution, evaluate_solution_steps.
  apply Nat.eqb_neq in Hnz. rewrite Hnz. simpl. lra.
Qed.

Lemma evaluate_solution_zero (accuracy : list nat -> R) (v : list Z) :
  Np.count_nonzero v = 0%nat -> evaluate_solution accuracy v = 1.
Proof.
  intros Hz. unfold evaluate_solution, evaluate_solution_steps.
  rewrite Hz. simpl. lra.
Qed.

(** X1. With an accuracy between 0 and 1 the fitness of any mask lies in
    (0, 1.01].  A mask that selects something has fitness at least
    [0.01 / d], and it scores worse than the 1.0 of the empty mask exactly
    when its accuracy is below its penalty [0.01 * count / d]. *)
Theorem fitness_range (accuracy : list nat -> R) (mask : list Z) :
  (forall selected, 0 <= accuracy selected <= 1) ->
  0 < evaluate_solution accuracy mask <= 1.01 /\
  (Np.count_nonzero mask <> 0%nat ->
     0.01 / INR (length mask) <= evaluate_solution accuracy mask /\
     (1 < evaluate_solution accuracy mask <->
      accuracy (Np.where_eq1 mask)
      < 0.01 * (INR (Np.count_nonzero mask) / INR (length mask)))).
Proof.
  intros Hacc. pose proof (Hacc (Np.where_eq1 mask)) as Ha.
  destruct (Nat.eq_dec (Np.count_nonzero mask) 0) as [Hz|Hnz].
  - rewrite (evaluate_solution_zero accuracy mask Hz).
    split; [lra|]. intros Hnz; contradiction.
  - rewrite (evaluate_solution_nonzero accuracy mask Hnz).
    destruct (penalty_range mask Hnz) as [[Hi Hlo] Hhi].
    split; [split; lra|]. intros _. split; [unfold Rdiv; lra|]. split; intros; lra.
Qed.

(** X2. The parsimony penalty never outweighs an accuracy gap above 0.01:
    of two non-empty masks the one whose accuracy is higher by more than
    0.01 has the strictly lower fitness, whatever the sizes of the two
    selections.  At equal accuracy and equal length the mask with fewer
    selected features has the strictly lower fitness. *)
Theorem accuracy_dominates_penalty (accuracy : list nat -> R) (m1 m2 : list Z) :
  Np.count_nonzero m1 <> 0%nat ->
  Np.count_nonzero m2 <> 0%nat ->
  (accuracy (Np.where_eq1 m2) + 0.01 < accuracy (Np.where_eq1 m1) ->
     evaluate_solution accuracy m1 < evaluate_solution accuracy m2) /\
  (accuracy (Np.where_eq1 m1) = accuracy (Np.where_eq1 m2) ->
   length m1 = length m2 ->
   (Np.count_nonzero m1 < Np.count_nonzero m2)%nat ->
     evaluate_solution accuracy m1 < evaluate_solution accuracy m2).
Proof.
  intros H1 H2.
  rewrite (evaluate_solution_nonzero accuracy m1 H1).
  rewrite (evaluate_solution_nonzero accuracy m2 H2).
  destruct (penalty_range m1 H1) as [[Hi1 Hlo1] Hhi1].
  destruct (penalty_range m2 H2) as [[Hi2 Hlo2] Hhi2].
  split.
  - intros Hgap. lra.
  - intros Heq Hlen Hlt. rewrite Heq, Hlen.
    assert (Hc : INR (Np.count_nonzero m1) < INR (Np.count_nonzero m2))
      by (apply lt_INR; exact Hlt).
    rewrite Hlen in Hi1.
    assert (INR (Np.count_nonzero m1) / INR (length m2)
            < INR (Np.count_nonzero m2) / INR (length m2)).
    { unfold Rdiv. apply Rmult_lt_compat_r; assumption. }
    lra.
Qed.

(** X3. The column indices the evaluator hands to the classifier are
    strictly increasing, all below the length of the mask, and at most as
    many as the mask has nonzero entries. *)
Theorem selected_indices_well_formed (mask : list Z) :
  StronglySorted lt (Np.where_eq1 mask) /\
  Forall (fun i => (i < length mask)%nat) (Np.where_eq1 mask) /\
  (length (Np.where_eq1 mask) <= Np.count_nonzero mask)%nat.
Proof.
  split; [|split].
  - unfold Np.where_eq1. generalize 0%nat.
    induction mask as [|b v IH]; intros k; simpl; [constructor|].
    destruct (b =? 1)%Z; [|apply IH].
    constructor; [apply IH|].
    apply Forall_forall. intros i Hi. apply where_eq1_from_spec in Hi. lia.
  - apply Forall_forall. intros i Hi. unfold Np.where_eq1 in Hi.
    apply where_eq1_from_spec in Hi. destruct Hi as [_ Hn].
    rewrite Nat.sub_0_r in Hn. apply nth_error_Some. congruence.
  - unfold Np.where_eq1, Np.count_nonzero. generalize 0%nat.
    induction mask as [|b v IH]; intros k; simpl; [lia|].
    destruct (Z.eqb_spec b 1) as [->|Hb]; simpl.
    + specialize (IH (S k)). lia.
    + specialize (IH (S k)). destruct (b =? 0)%Z; simpl; lia.
Qed.

(** ** Masses above the degenerate case *)



(** ** Decay of the gravitational constant *)

(** X5. On [0 <= t < max_iter] the gravitational constant starts at 100,
    stays above [100 * exp(-20)], and strictly decreases from one iteration
    to the next. *)
Theorem G_strictly_decreasing (max_iter t : Z) :
  (0 <= t < max_iter)%Z ->
  G max_iter 0 = 100 /\
  100 * exp (- 20) < G max_iter t <= 100 /\
  (forall t', (t < t')%Z -> G max_iter t' < G max_iter t).
Proof.
  intros [Ht0 HtT].
  assert (HT : 0 < IZR max_iter) by (apply IZR_lt; lia).
  assert (Hform : forall s, G max_iter s = 100 * exp (- 20 * (IZR s / IZR max_iter))).
  { intros s. unfold G. f_equal. f_equal. rewrite mult_IZR. field. lra. }
  assert (Hinv : 0 < / IZR max_iter) by (apply Rinv_0_lt_compat; exact HT).
  assert (Hone : IZR max_iter * / IZR max_iter = 1) by (apply Rinv_r; lra).
  assert (Hq : 0 <= IZR t / IZR max_iter < 1).
  { unfold Rdiv. assert (0 <= IZR t) by (apply IZR_le; lia).
    assert (IZR t < IZR max_iter) by (apply IZR_lt; lia). split; nra. }
  split; [|split].
  - rewrite Hform. unfold Rdiv. rewrite Rmult_0_l, Rmult_0_r, exp_0. ring.
  - rewrite Hform. split.
    + apply Rmult_lt_compat_l; [lra|]. apply exp_increasing. lra.
    + destruct (Req_dec (IZR t / IZR max_iter) 0) as [->|Hne].
      * rewrite Rmult_0_r, exp_0. lra.
      * assert (exp (-20 * (IZR t / IZR max_iter)) < exp 0)
          by (apply exp_increasing; lra).
        rewrite exp_0 in *. lra.
  - intros t' Hlt. rewrite !Hform.
    apply Rmult_lt_compat_l; [lra|]. apply exp_increasing.
    assert (IZR t / IZR max_iter < IZR t' / IZR max_iter).
    { unfold Rdiv. apply Rmult_lt_compat_r; [exact Hinv|]. apply IZR_lt; exact Hlt. }
    lra.
Qed.

(** ** The sigmoid transfer *)


(** ** Forces between agents *)

(** X7. Before the random scaling the pairwise forces obey action and
    reaction: the distance of two agents is symmetric, the force of [i] on
    [j] is the opposite of the force of [j] on [i], and two agents at the same
    position exert no force on each other. *)
Theorem pairwise_force_antisymmetric
        (Gt : R) (M : list R) (X : list (list Z)) (n d i j : nat) :
  shape n d X -> (i < n)%nat -> (j < n)%nat ->
  distance X i j = distance X j i /\
  length (force Gt M X i j) = d /\
  (forall k, (k < d)%nat ->
     nth k (force Gt M X j i) 0 = - nth k (force Gt M X i j) 0) /\
  (nth i X [] = nth j X [] ->
     forall k, (k < d)%nat -> nth k (force Gt M X i j) 0 = 0).
Proof.
  intros HX Hi Hj.
  assert (Hsym : distance X i j = distance X j i).
  { rewrite (distance_euclidean n d X i j HX Hi Hj).
    rewrite (distance_euclidean n d X j i HX Hj Hi).
    f_equal. f_equal. apply map_ext. intros k. ring. }
  split; [exact Hsym|]. split; [apply (force_length Gt M X n d HX); assumption|].
  split.
  - intros k Hk.
    rewrite (force_entry Gt M X n d HX j i k Hj Hi Hk).
    rewrite (force_entry Gt M X n d HX i j k Hi Hj Hk).
    unfold pairwise_force. rewrite Hsym. unfold Rdiv. ring.
  - intros Heq k Hk.
    rewrite (force_entry Gt M X n d HX i j k Hi Hj Hk).
    unfold pairwise_force. rewrite Heq. unfold Rdiv. ring.
Qed.

Lemma update_velocity_entry (rand : nat -> R) (n d : nat) (V a : list (list R))
      (c i k : nat) :
  shape n d V -> shape n d a -> (i < n)%nat -> (k < d)%nat ->
  nth k (nth i (fst (update_velocity rand n d V a c)) []) 0
  = rand (c + i * d + k)%nat * nth k (nth i V []) 0 + nth k (nth i a []) 0.
Proof.
  intros HV Ha Hi Hk.
  pose proof (random_rand_matrix_shape rand n d c) as Hr.
  unfold update_velocity, bind, ret. cbn [fst random_rand_matrix].
  change (map _ (seq 0 n)) with (fst (random_rand_matrix rand n d c)).
  rewrite (map2_entry Rplus n d _ a i k 0 0 0
             (shape_map2 Rmult n d _ V Hr HV) Ha Hi Hk).
  rewrite (map2_entry Rmult n d _ V i k 0 0 0 Hr HV Hi Hk).
  now rewrite random_rand_matrix_entry.
Qed.

Lemma accelerations_entry (rand : nat -> R) (Gt : R) (M : list R) (X : list (list Z))
      (n d c i k : nat) :
  shape n d X -> (i < n)%nat -> (k < d)%nat ->
  nth k (nth i (fst (accelerations rand Gt M X n d c)) []) 0
  = total_force_on rand Gt M X n c i k / acceleration_denominator M i.
Proof.
  intros HX Hi Hk.
  pose proof (outer_loop_seq rand Gt M X n d HX c n 0 ltac:(lia)) as H.
  simpl in H. rewrite Nat.add_0_r in H. destruct H as (_ & _ & Hent).
  exact (Hent i k Hi Hk).
Qed.

(** X8. When all agents of a population have the same fitness (a single
    agent always has), the masses are zero, so every acceleration is
    exactly 0 and the velocity update only damps: no entry of the new
    velocity exceeds the old one in absolute value. *)
Theorem identical_fitness_gives_no_acceleration
        (accuracy : list nat -> R) (rand : nat -> R) (Gt : R)
        (X : list (list Z)) (V : list (list R)) (n d c : nat) (f : R) :
  (forall k, 0 <= rand k < 1) ->
  shape n d X -> shape n d V ->
  Forall (eq f) (map (evaluate_solution accuracy) X) ->
  let M := mass (raw_mass (map (evaluate_solution accuracy) X) f f) in
  let a := accelerations rand Gt M X n d c in
  let V' := update_velocity rand n d V (fst a) (snd a) in
  forall i k, (i < n)%nat -> (k < d)%nat ->
    nth k (nth i (fst a) []) 0 = 0 /\
    Rabs (nth k (nth i (fst V') []) 0) <= Rabs (nth k (nth i V []) 0).
Proof.
  intros Hrand HX HV Hall M a V' i k Hi Hk.
  assert (HM : Forall (fun x => x = 0) M).
  { unfold M. apply mass_of_zero. apply raw_mass_identical. exact Hall. }
  assert (Ha : nth k (nth i (fst a) []) 0 = 0).
  { unfold a. rewrite (accelerations_entry rand Gt M X n d c i k HX Hi Hk).
    unfold total_force_on. rewrite sum_all_zero; [unfold Rdiv; ring|].
    apply Forall_forall. intros y Hy. apply in_map_iff in Hy.
    destruct Hy as [j [<- _]]. destruct (Nat.eqb i j); [reflexivity|].
    unfold pairwise_force. rewrite (nth_all_zero M i HM). unfold Rdiv. ring. }
  split; [exact Ha|].
  unfold V'.
  rewrite (update_velocity_entry rand n d V (fst a) (snd a) i k HV
             (accelerations_shape rand Gt M X n d c HX) Hi Hk).
  rewrite Ha, Rplus_0_r, Rabs_mult.
  destruct (Hrand (snd a + i * d + k)%nat) as [H0 H1].
  rewrite (Rabs_right (rand _)) by lra.
  pose proof (Rabs_pos (nth k (nth i V []) 0)). nra.
Qed.

Lemma matrix_ext (n d : nat) (A B : list (list R)) :
  shape n d A -> shape n d B ->
  (forall i k, (i < n)%nat -> (k < d)%nat ->
     nth k (nth i A []) 0 = nth k (nth i B []) 0) ->
  A = B.
Proof.
  intros HA HB Hent. apply (nth_ext _ _ [] []).
  - destruct HA, HB. congruence.
  - intros i Hi. destruct HA as [HlA HrA] eqn:EA. rewrite HlA in Hi.
    apply (nth_ext _ _ 0 0).
    + rewrite (shape_row n d A i (conj HlA HrA) Hi), (shape_row n d B i HB Hi).
      reflexivity.
    + intros k Hk. rewrite (shape_row n d A i (conj HlA HrA) Hi) in Hk.
      now apply Hent.
Qed.

(** X9. Velocities start at zero, so the first velocity update returns the
    accelerations themselves, whatever the inertia draws are. *)
Theorem first_velocity_is_acceleration
        (rand : nat -> R) (randint : nat -> Z) (n d : nat) (a : list (list R)) (c : nat) :
  shape n d a ->
  shape n d (V (initial_state randint n d)) /\
  fst (update_velocity rand n d (V (initial_state randint n d)) a c) = a.
Proof.
  intros Ha.
  assert (HV : shape n d (V (initial_state randint n d))).
  { simpl. split; [apply repeat_length|].
    apply Forall_forall. intros row Hrow. apply repeat_spec in Hrow. subst row.
    apply repeat_length. }
  split; [exact HV|].
  apply (matrix_ext n d); [apply update_velocity_shape; assumption|exact Ha|].
  intros i k Hi Hk.
  rewrite (update_velocity_entry rand n d _ a c i k HV Ha Hi Hk). simpl V.
  rewrite (nth_indep _ [] (Np.zeros d)) by (rewrite repeat_length; exact Hi).
  rewrite nth_repeat. rewrite (zeros_entry d k). ring.
Qed.

(** ** The best-so-far tracker along a run *)

Lemma argmin_from_spec (l pre : list R) (best : R) (bk : nat) :
  (bk < length pre)%nat -> nth bk pre 0 = best ->
  let k := Np.argmin_from (length pre) bk best l in
  (k < length (pre ++ l))%nat /\ nth k (pre ++ l) 0 = fold_left Rmin l best.
Proof.
  revert pre best bk. induction l as [|x l IH]; intros pre best bk Hbk Hnth; simpl.
  - rewrite app_nil_r. split; assumption.
  - assert (Hlen : length (pre ++ [x]) = S (length pre))
      by (rewrite length_app; simpl; lia).
    destruct (Rlt_dec x best) as [Hlt|Hge].
    + replace (Rmin best x) with x by (unfold Rmin; destruct (Rle_dec best x); lra).
      specialize (IH (pre ++ [x]) x (length pre)).
      rewrite Hlen, <- app_assoc in IH. simpl in IH. apply IH; [lia|].
      rewrite app_nth2 by lia. now rewrite Nat.sub_diag.
    + replace (Rmin best x) with best by (unfold Rmin; destruct (Rle_dec best x); lra).
      specialize (IH (pre ++ [x]) best bk).
      rewrite Hlen, <- app_assoc in IH. simpl in IH. apply IH; [lia|].
      rewrite app_nth1 by exact Hbk. exact Hnth.
Qed.

Lemma argmin_spec (l : list R) (k : nat) (best : R) :
  Np.argmin l = Some k -> Np.min l = Some best ->
  (k < length l)%nat /\ nth k l 0 = best.
Proof.
  destruct l as [|x l]; simpl; [discriminate|]. intros [= <-] [= <-].
  apply (argmin_from_spec l [x] x 0); simpl; [lia|reflexivity].
Qed.

Lemma lt_efloat_false_le (x : R) (b : efloat) :
  lt_efloat x b = false -> efloat_le b (Finite x).
Proof.
  destruct b; simpl; auto; [|discriminate].
  destruct (Rlt_dec x r); [discriminate|lra].
Qed.

Lemma last_cons_default {A : Type} (x : A) (l : list A) :
  last (x :: l) x = last l x.
Proof. destruct l; reflexivity. Qed.

Lemma evaluated_populations_snoc (X0 : list (list Z)) (l : list (list (list Z)))
      (P : list (list Z)) :
  evaluated_populations X0 (l ++ [P]) = evaluated_populations X0 l ++ [last l X0].
Proof.
  unfold evaluated_populations.
  change (X0 :: l ++ [P]) with ((X0 :: l) ++ [P]). rewrite removelast_last.
  rewrite <- last_cons_default. apply app_removelast_last. discriminate.
Qed.

Lemma in_removelast {A : Type} (x : A) (l : list A) :
  In x (removelast l) -> In x l.
Proof.
  induction l as [|y l IH]; simpl; [auto|].
  destruct l as [|z l]; [contradiction|].
  intros [->|H]; [now left|right; apply IH; exact H].
Qed.

Section Tracker.

Variable accuracy : list nat -> R.
Variable rand : nat -> R.
Variable randint : nat -> Z.
Variables n d : nat.
Variable max_iter : Z.

Lemma iteration_ok_unfold (t : nat) (st st' : state) :
  iteration accuracy rand n d max_iter t st = Ok st' ->
  exists best worst k,
    let fitness := map (evaluate_solution accuracy) (X st) in
    Np.min fitness = Some best /\ Np.max fitness = Some worst /\
    Np.argmin fitness = Some k /\
    let M := mass (raw_mass fitness best worst) in
    let a := accelerations rand (G max_iter (Z.of_nat t)) M (X st) n d (draws st) in
    let V' := update_velocity rand n d (V st) (fst a) (snd a) in
    let X' := update_position rand n d (map (map sigmoid) (fst V')) (snd V') in
    let b := track_best best k st in
    st' = {| X := fst X';
             V := fst V';
             best_fitness := fst b;
             best_position := snd b;
             history_fitness := history_fitness st ++ [fst b];
             history_num_features :=
               history_num_features st ++ [count_nonzero_position (snd b)];
             feature_selection_counter :=
               Np.map2 Z.add (feature_selection_counter st) (Np.sum_axis0 d (fst X'));
             all_positions := all_positions st ++ [fst X'];
             draws := snd X' |}.
Proof.
  intros Hit.
  destruct (Np.min (map (evaluate_solution accuracy) (X st))) as [best|] eqn:Hmin;
    [|unfold iteration in Hit; rewrite Hmin in Hit; discriminate].
  destruct (Np.max (map (evaluate_solution accuracy) (X st))) as [worst|] eqn:Hmax;
    [|unfold iteration in Hit; rewrite Hmin, Hmax in Hit; discriminate].
  destruct (Np.argmin (map (evaluate_solution accuracy) (X st))) as [k|] eqn:Harg;
    [|unfold iteration in Hit; rewrite Hmin, Hmax, Harg in Hit; discriminate].
  rewrite (iteration_unfold accuracy rand n d max_iter t st best worst k Hmin Hmax Harg)
    in Hit.
  injection Hit as <-. exists best, worst, k.
  split; [exact Hmin|]. split; [exact Hmax|]. split; [exact Harg|]. reflexivity.
Qed.

Lemma accelerations_cursor (Gt : R) (M : list R) (X : list (list Z)) (c : nat) :
  shape n d X ->
  snd (accelerations rand Gt M X n d c) = (c + n * (n - 1))%nat.
Proof.
  intros HX.
  pose proof (outer_loop_seq rand Gt M X n d HX c n 0 ltac:(lia)) as H.
  simpl in H. rewrite Nat.add_0_r in H. apply H.
Qed.

Lemma tracker_preserved (X0 : list (list Z)) (t k : nat) (st : state) :
  (0 < n)%nat ->
  loop_invariant n d k st ->
  tracker_invariant accuracy X0 n d k st ->
  exists st',
    iteration accuracy rand n d max_iter t st = Ok st' /\
    loop_invariant n d (S k) st' /\
    tracker_invariant accuracy X0 n d (S k) st'.
Proof.
  intros Hn Hinv (HXl & Hdr & Hsh & Hmin & Hbp & Hhf & Hhn & Hle).
  destruct (iteration_preserves accuracy rand n d max_iter t k st Hn Hinv)
    as (st' & Hit & Hinv' & _).
  exists st'. split; [exact Hit|]. split; [exact Hinv'|].
  destruct (iteration_ok_unfold t st st' Hit)
    as (best & worst & i & Hmn & Hmx & Harg & Hst).
  cbv zeta in Hst.
  set (fitness := map (evaluate_solution accuracy) (X st)) in *.
  set (M := mass (raw_mass fitness best worst)) in *.
  set (a := accelerations rand (G max_iter (Z.of_nat t)) M (X st) n d (draws st)) in *.
  set (V' := update_velocity rand n d (V st) (fst a) (snd a)) in *.
  set (X' := update_position rand n d (map (map sigmoid) (fst V')) (snd V')) in *.
  destruct Hinv as (HX & _).
  destruct Hinv' as (HX' & _).
  destruct (argmin_spec fitness i best Harg Hmn) as [Hi Hnth].
  assert (Hilen : (i < length (X st))%nat)
    by (unfold fitness in Hi; rewrite length_map in Hi; exact Hi).
  assert (Hbest : evaluate_solution accuracy (nth i (X st) []) = best).
  { rewrite <- Hnth. unfold fitness.
    rewrite (nth_indep _ 0 (evaluate_solution accuracy [])) by exact Hi.
    now rewrite map_nth. }
  destruct (min_spec fitness best Hmn) as [_ Hlo].
  assert (Hev : evaluated_populations X0 (all_positions st ++ [fst X'])
                = evaluated_populations X0 (all_positions st) ++ [X st]).
  { rewrite evaluated_populations_snoc, HXl. reflexivity. }
  assert (Htb : efloat_le (fst (track_best best i st)) (best_fitness st))
    by apply track_best_le.
  assert (Htm : efloat_le (fst (track_best best i st)) (Finite best)).
  { unfold track_best. destruct (lt_efloat best (best_fitness st)) eqn:Hlt; simpl.
    - lra.
    - now apply lt_efloat_false_le. }
  assert (Hnew : match snd (track_best best i st) with
                 | None => False
                 | Some p =>
                     fst (track_best best i st) = Finite (evaluate_solution accuracy p) /\
                     exists P, In P (evaluated_populations X0 (all_positions st) ++ [X st])
                               /\ In p P
                 end).
  { unfold track_best. destruct (lt_efloat best (best_fitness st)) eqn:Hlt; simpl.
    - split; [now rewrite Hbest|]. exists (X st). split.
      + apply in_or_app. right. now left.
      + apply nth_In. exact Hilen.
    - destruct (best_position st) as [p|].
      + destruct Hbp as [Hf [P [HP Hp]]]. split; [exact Hf|].
        exists P. split; [apply in_or_app; now left|exact Hp].
      + destruct Hbp as [Hf _]. rewrite Hf in Hlt. simpl in Hlt. discriminate. }
  subst st'. unfold tracker_invariant.
  cbn [X V best_fitness best_position history_fitness history_num_features
       all_positions draws] in *.
  split; [now rewrite last_last|]. split; [|split; [|split; [|split; [|split; [|split]]]]].
  - assert (Hc3 : snd X' = (snd V' + n * d)%nat) by reflexivity.
    assert (Hc2 : snd V' = (snd a + n * d)%nat) by reflexivity.
    rewrite Hc3, Hc2. unfold a. rewrite (accelerations_cursor _ _ _ _ HX), Hdr. lia.
  - rewrite app_comm_cons.
    apply Forall_app. split; [exact Hsh|]. constructor; [exact HX'|constructor].
  - intros P x HP Hx. rewrite Hev in HP. apply in_app_or in HP.
    destruct HP as [HP|[<-|[]]].
    + eapply efloat_le_trans; [exact Htb|]. now apply (Hmin P x).
    + eapply efloat_le_trans; [exact Htm|]. simpl.
      rewrite Forall_forall in Hlo. apply Hlo. unfold fitness.
      apply in_map. exact Hx.
  - destruct (snd (track_best best i st)) as [p|]; [|contradiction].
    rewrite Hev. exact Hnew.
  - now rewrite last_last.
  - now rewrite last_last.
  - apply Forall_app. split; [exact Hle|]. constructor; [|constructor].
    destruct (snd (track_best best i st)) as [p|]; [|contradiction].
    destruct Hnew as [_ [P [HP Hp]]]. simpl.
    assert (HPs : shape n d P).
    { apply in_app_or in HP. destruct HP as [HP|[<-|[]]]; [|exact HX].
      rewrite Forall_forall in Hsh. apply Hsh.
      apply in_removelast. exact HP. }
    destruct HPs as [_ Hrows]. rewrite Forall_forall in Hrows.
    rewrite <- (Hrows p Hp). apply count_nonzero_le_length.
Qed.

Lemma loop_tracked (X0 : list (list Z)) (ts : list nat) :
  (0 < n)%nat ->
  forall k st,
    loop_invariant n d k st ->
    tracker_invariant accuracy X0 n d k st ->
    exists st',
      loop accuracy rand n d max_iter ts st = Ok st' /\
      loop_invariant n d (k + length ts) st' /\
      tracker_invariant accuracy X0 n d (k + length ts) st'.
Proof.
  intros Hn. induction ts as [|t ts IH]; intros k st Hinv Htr; simpl.
  - exists st. rewrite Nat.add_0_r. split; [reflexivity|split; assumption].
  - destruct (tracker_preserved X0 t k st Hn Hinv Htr) as (st1 & Hit & Hinv1 & Htr1).
    rewrite Hit. destruct (IH (S k) st1 Hinv1 Htr1) as (st2 & Hl & Hinv2 & Htr2).
    exists st2. rewrite Nat.add_succ_r. split; [exact Hl|split; assumption].
Qed.

Lemma initial_state_tracked :
  tracker_invariant accuracy (X (initial_state randint n d)) n d 0
                    (initial_state randint n d).
Proof.
  unfold tracker_invariant.
  cbn [X V best_fitness best_position history_fitness history_num_features
       all_positions draws initial_state random_randint_matrix].
  split; [reflexivity|]. split; [lia|]. split.
  { constructor; [apply shape_map_seq|constructor]. }
  split; [intros P x HP; contradiction|].
  split; [split; reflexivity|].
  split; [reflexivity|]. split; [reflexivity|constructor].
Qed.

Lemma run_tracked :
  (0 < n)%nat ->
  exists st,
    loop accuracy rand n d max_iter (seq 0 (Z.to_nat max_iter))
         (initial_state randint n d) = Ok st /\
    loop_invariant n d (Z.to_nat max_iter) st /\
    tracker_invariant accuracy (X (initial_state randint n d)) n d
                      (Z.to_nat max_iter) st.
Proof.
  intros Hn.
  destruct (loop_tracked (X (initial_state randint n d)) (seq 0 (Z.to_nat max_iter))
              Hn 0 _ (initial_state_invariant randint n d) initial_state_tracked)
    as (st & Hl & Hinv & Htr).
  rewrite length_seq in Hinv, Htr. exists st. split; [exact Hl|split; assumption].
Qed.

End Tracker.

(** ** What a run returns *)

Section Returned.

Variable accuracy : list nat -> R.
Variable rand : nat -> R.
Variable randint : nat -> Z.

Lemma GSA_returns_tracked (num_agents max_iter dim : Z) :
  (0 < num_agents)%Z -> (0 <= dim)%Z ->
  let n := Z.to_nat num_agents in
  let d := Z.to_nat dim in
  exists st,
    loop accuracy rand n d max_iter (seq 0 (Z.to_nat max_iter))
         (initial_state randint n d) = Ok st /\
    loop_invariant n d (Z.to_nat max_iter) st /\
    tracker_invariant accuracy (X (initial_state randint n d)) n d
                      (Z.to_nat max_iter) st /\
    GSA_feature_selection accuracy rand randint num_agents max_iter dim
    = Ok {| r_best_position := best_position st;
            r_best_accuracy := one_minus (best_fitness st);
            r_history_fitness := history_fitness st;
            r_history_num_features := history_num_features st;
            r_feature_selection_counter := feature_selection_counter st;
            r_all_positions := all_positions st |}.
Proof.
  intros Hn Hd n d.
  destruct (run_tracked accuracy rand randint n d max_iter ltac:(unfold n; lia))
    as (st & Hloop & Hinv & Htr).
  exists st. split; [exact Hloop|]. split; [exact Hinv|]. split; [exact Htr|].
  unfold GSA_feature_selection.
  destruct (Z.ltb_spec num_agents 0); [lia|].
  destruct (Z.ltb_spec dim 0); [lia|]. simpl.
  fold n d. now rewrite Hloop.
Qed.

Lemma initial_population_binary (n d : nat) :
  (forall k, binary (randint k)) ->
  Forall (Forall binary) (X (initial_state randint n d)).
Proof.
  intros Hbin. simpl. apply Forall_forall. intros row Hrow.
  apply in_map_iff in Hrow. destruct Hrow as [i [<- _]].
  apply Forall_forall. intros b Hb. apply in_map_iff in Hb.
  destruct Hb as [k [<- _]]. apply Hbin.
Qed.

(** X10. A run with at least one agent and one iteration returns a best
    position that is an agent of a population whose fitness was computed
    (the initial population or a recorded one other than the last); its
    fitness is the minimum over all agents of all these populations, is the
    last entry of the fitness history, and the returned accuracy is one
    minus it.  The population produced by the last iteration is recorded but
    never scored. *)
Theorem returned_best_is_minimum_of_evaluated (num_agents max_iter dim : Z) :
  (0 < num_agents)%Z -> (0 <= dim)%Z -> (0 < max_iter)%Z ->
  let n := Z.to_nat num_agents in
  let d := Z.to_nat dim in
  let X0 := X (initial_state randint n d) in
  exists res p,
    GSA_feature_selection accuracy rand randint num_agents max_iter dim = Ok res /\
    r_best_position res = Some p /\
    r_best_accuracy res = Finite (1 - evaluate_solution accuracy p) /\
    last (r_history_fitness res) PosInf = Finite (evaluate_solution accuracy p) /\
    length p = d /\
    evaluated_populations X0 (r_all_positions res)
    = X0 :: removelast (r_all_positions res) /\
    (exists P, In P (evaluated_populations X0 (r_all_positions res)) /\ In p P) /\
    (forall P x, In P (evaluated_populations X0 (r_all_positions res)) -> In x P ->
       evaluate_solution accuracy p <= evaluate_solution accuracy x).
Proof.
  intros Hn Hd HT n d X0.
  destruct (GSA_returns_tracked num_agents max_iter dim Hn Hd)
    as (st & _ & Hinv & Htr & Hres).
  fold n d X0 in Hinv, Htr.
  destruct Htr as (_ & _ & Hsh & Hmin & Hbp & Hhf & _).
  destruct Hinv as (_ & _ & Hsl & _).
  destruct (best_position st) as [p|] eqn:Hp; [|destruct Hbp as [_ Hk]; lia].
  destruct Hbp as [Hf [P [HP HpP]]].
  eexists. exists p. split; [exact Hres|]. simpl.
  split; [reflexivity|]. rewrite Hf. split; [reflexivity|]. split; [rewrite Hhf; exact Hf|].
  split; [|split; [|split]].
  - rewrite Forall_forall in Hsh. destruct (Hsh P (in_removelast _ _ HP)) as [_ Hrows].
    rewrite Forall_forall in Hrows. apply Hrows. exact HpP.
  - unfold evaluated_populations.
    destruct (all_positions st) as [|Q l]; [simpl in Hsl; lia|reflexivity].
  - exists P. split; assumption.
  - intros Q x HQ Hx. specialize (Hmin Q x HQ Hx). rewrite Hf in Hmin. exact Hmin.
Qed.

(** X11. The feature-count history has one entry per iteration, no entry
    exceeds [dim], and its last entry is the number of nonzero bits of the
    returned best position. *)
Theorem feature_history_counts_best_position (num_agents max_iter dim : Z) :
  (0 < num_agents)%Z -> (0 <= dim)%Z ->
  exists res,
    GSA_feature_selection accuracy rand randint num_agents max_iter dim = Ok res /\
    length (r_history_num_features res) = Z.to_nat max_iter /\
    length (r_history_fitness res) = length (r_history_num_features res) /\
    Forall (fun c => (c <= Z.to_nat dim)%nat) (r_history_num_features res) /\
    last (r_history_num_features res) 0%nat
    = count_nonzero_position (r_best_position res).
Proof.
  intros Hn Hd.
  destruct (GSA_returns_tracked num_agents max_iter dim Hn Hd)
    as (st & _ & Hinv & Htr & Hres).
  destruct Htr as (_ & _ & _ & _ & _ & _ & Hhn & Hle).
  destruct Hinv as (_ & _ & _ & _ & _ & Hhl & Hnl & _).
  eexists. split; [exact Hres|]. simpl.
  split; [exact Hnl|]. split; [congruence|]. split; assumption.
Qed.

(** X12. A run with [n >= 1] agents draws [n * d] numbers for the initial
    population and then, in each iteration, [n * (n - 1)] for the pairwise
    forces, [n * d] for the inertia and [n * d] for the binarisation: after
    [T] iterations the generator has advanced by
    [n * d + T * (n * (n - 1) + 2 * n * d)] draws. *)
Theorem draws_consumed_by_a_run (n d : nat) (max_iter : Z) :
  (0 < n)%nat ->
  draws (initial_state randint n d) = (n * d)%nat /\
  (forall Gt M X c, shape n d X ->
     snd (accelerations rand Gt M X n d c) = (c + n * (n - 1))%nat) /\
  (forall V a c, snd (update_velocity rand n d V a c) = (c + n * d)%nat) /\
  (forall S c, snd (update_position rand n d S c) = (c + n * d)%nat) /\
  exists st,
    loop accuracy rand n d max_iter (seq 0 (Z.to_nat max_iter))
         (initial_state randint n d) = Ok st /\
    draws st = (n * d + Z.to_nat max_iter * (n * (n - 1) + 2 * (n * d)))%nat.
Proof.
  intros Hn. split; [simpl; lia|]. split; [|split; [|split]].
  - intros Gt M X c HX. now apply accelerations_cursor.
  - reflexivity.
  - reflexivity.
  - destruct (run_tracked accuracy rand randint n d max_iter Hn) as (st & Hloop & _ & Htr).
    exists st. split; [exact Hloop|]. apply Htr.
Qed.

(** X13. The generator returning only 0 and 1 from [randint(0, 2)], every
    population of a run (the initial one and each recorded one) has
    [num_agents] rows of [dim] bits: every mask handed to the evaluator is
    binary and of full length. *)
Theorem every_population_is_binary (num_agents max_iter dim : Z) :
  (forall k, binary (randint k)) ->
  (0 < num_agents)%Z -> (0 <= dim)%Z ->
  let n := Z.to_nat num_agents in
  let d := Z.to_nat dim in
  exists res,
    GSA_feature_selection accuracy rand randint num_agents max_iter dim = Ok res /\
    Forall (fun P => shape n d P /\ Forall (Forall binary) P)
           (X (initial_state randint n d) :: r_all_positions res).
Proof.
  intros Hbin Hn Hd n d.
  destruct (GSA_returns_tracked num_agents max_iter dim Hn Hd)
    as (st & _ & Hinv & Htr & Hres).
  fold n d in Hinv, Htr.
  destruct Htr as (_ & _ & Hsh & _).
  destruct Hinv as (_ & _ & _ & Hsn & _).
  eexists. split; [exact Hres|]. simpl r_all_positions.
  constructor.
  - split; [now inversion Hsh|apply initial_population_binary; exact Hbin].
  - exact Hsn.
Qed.

(** X14. What the script prints after a run (lines 129-135): the indices
    [np.where(best_subset == 1)[0]] are as many as the last entry of the
    feature-count history, all below [dim], and the best subset is binary of
    length [dim], the generator returning only 0 and 1 from
    [randint(0, 2)]. *)
Theorem printed_selection_matches_history (num_agents max_iter dim : Z) :
  (forall k, binary (randint k)) ->
  (0 < num_agents)%Z -> (0 <= dim)%Z -> (0 < max_iter)%Z ->
  exists res best_subset,
    GSA_feature_selection accuracy rand randint num_agents max_iter dim = Ok res /\
    r_best_position res = Some best_subset /\
    length best_subset = Z.to_nat dim /\
    Forall binary best_subset /\
    length (Np.where_eq1 best_subset) = last (r_history_num_features res) 0%nat /\
    Forall (fun i => (i < Z.to_nat dim)%nat) (Np.where_eq1 best_subset).
Proof.
  intros Hbin Hn Hd HT.
  destruct (GSA_returns_tracked num_agents max_iter dim Hn Hd)
    as (st & _ & Hinv & Htr & Hres).
  set (n := Z.to_nat num_agents) in *. set (d := Z.to_nat dim) in *.
  destruct Htr as (_ & _ & Hsh & _ & Hbp & _ & Hhn & _).
  destruct Hinv as (_ & _ & _ & Hsn & _).
  destruct (best_position st) as [p|] eqn:Hp; [|destruct Hbp as [_ Hk]; lia].
  destruct Hbp as [_ [P [HP HpP]]].
  pose proof (in_removelast _ _ HP) as HPall.
  assert (Hlen : length p = d).
  { rewrite Forall_forall in Hsh. destruct (Hsh P HPall) as [_ Hrows].
    rewrite Forall_forall in Hrows. apply Hrows. exact HpP. }
  assert (Hpb : Forall binary p).
  { destruct HPall as [<-|HPs].
    - pose proof (initial_population_binary n d Hbin) as H0.
      rewrite Forall_forall in H0. apply H0. exact HpP.
    - rewrite Forall_forall in Hsn. destruct (Hsn P HPs) as [_ Hb].
      rewrite Forall_forall in Hb. apply Hb. exact HpP. }
  eexists. exists p. split; [exact Hres|]. simpl.
  split; [reflexivity|]. split; [exact Hlen|]. split; [exact Hpb|]. split.
  - rewrite Hhn. simpl. symmetry. apply (count_nonzero_binary p 0). exact Hpb.
  - rewrite <- Hlen. apply Forall_forall. intros i Hi.
    unfold Np.where_eq1 in Hi. apply where_eq1_from_spec in Hi.
    destruct Hi as [_ Hi]. rewrite Nat.sub_0_r in Hi.
    apply nth_error_Some. congruence.
Qed.

End Returned.

(** The further properties at concrete inputs. *)

Lemma perfect_classifier_range : forall selected, 0 <= perfect_classifier selected <= 1.
Proof. intros selected. unfold perfect_classifier. lra. Defined.

Lemma ones_tape_binary : forall k, binary (ones_tape k).
Proof. intros k. right. reflexivity. Defined.

Lemma fitness_range_witness :
  (forall selected, 0 <= perfect_classifier selected <= 1) /\
  0 < evaluate_solution perfect_classifier [1; 0; 1]%Z <= 1.01.
Proof.
  split; [exact perfect_classifier_range|].
  exact (proj1 (fitness_range perfect_classifier [1; 0; 1]%Z perfect_classifier_range)).
Defined.

Lemma accuracy_dominates_penalty_witness :
  Np.count_nonzero [1; 0]%Z <> 0%nat /\
  Np.count_nonzero [1; 1]%Z <> 0%nat /\
  perfect_classifier (Np.where_eq1 [1; 0]%Z) = perfect_classifier (Np.where_eq1 [1; 1]%Z) /\
  length [1; 0]%Z = length [1; 1]%Z /\
  (Np.count_nonzero [1; 0]%Z < Np.count_nonzero [1; 1]%Z)%nat /\
  evaluate_solution perfect_classifier [1; 0]%Z
  < evaluate_solution perfect_classifier [1; 1]%Z.
Proof.
  assert (H1 : Np.count_nonzero [1; 0]%Z <> 0%nat) by discriminate.
  assert (H2 : Np.count_nonzero [1; 1]%Z <> 0%nat) by discriminate.
  assert (H3 : perfect_classifier (Np.where_eq1 [1; 0]%Z)
               = perfect_classifier (Np.where_eq1 [1; 1]%Z)) by reflexivity.
  assert (H4 : length [1; 0]%Z = length [1; 1]%Z) by reflexivity.
  assert (H5 : (Np.count_nonzero [1; 0]%Z < Np.count_nonzero [1; 1]%Z)%nat)
    by (vm_compute; lia).
  split; [exact H1|]. split; [exact H2|]. split; [exact H3|]. split; [exact H4|].
  split; [exact H5|].
  exact (proj2 (accuracy_dominates_penalty perfect_classifier [1; 0]%Z [1; 1]%Z H1 H2)
               H3 H4 H5).
Defined.




Lemma G_decreasing_witness :
  (0 <= 3 < 40)%Z /\ G 40 0 = 100 /\ G 40 4 < G 40 3.
Proof.
  assert (H : (0 <= 3 < 40)%Z) by lia.
  split; [exact H|].
  destruct (G_strictly_decreasing 40 3 H) as (H0 & _ & Hdec).
  split; [exact H0|]. apply Hdec. lia.
Defined.


Lemma pairwise_force_witness :
  shape 2 2 [[0; 1]; [1; 1]]%Z /\ (0 < 2)%nat /\ (1 < 2)%nat /\
  distance [[0; 1]; [1; 1]]%Z 0 1 = distance [[0; 1]; [1; 1]]%Z 1 0.
Proof.
  assert (HX : shape 2 2 [[0; 1]; [1; 1]]%Z) by (split; [reflexivity|repeat constructor]).
  assert (H0 : (0 < 2)%nat) by lia. assert (H1 : (1 < 2)%nat) by lia.
  split; [exact HX|]. split; [exact H0|]. split; [exact H1|].
  exact (proj1 (pairwise_force_antisymmetric 100 [0.5; 0.5] [[0; 1]; [1; 1]]%Z
                                             2 2 0 1 HX H0 H1)).
Defined.

Lemma no_acceleration_witness :
  (forall k, 0 <= half_tape k < 1) /\
  shape 2 2 [[0; 0]; [0; 0]]%Z /\ shape 2 2 [[1; 2]; [3; 4]] /\
  Forall (eq 1.0) (map (evaluate_solution perfect_classifier) [[0; 0]; [0; 0]]%Z) /\
  (0 < 2)%nat /\ (1 < 2)%nat /\
  nth 1 (nth 0 (fst (accelerations half_tape 100
                       (mass (raw_mass (map (evaluate_solution perfect_classifier)
                                            [[0; 0]; [0; 0]]%Z) 1.0 1.0))
                       [[0; 0]; [0; 0]]%Z 2 2 0%nat)) []) 0 = 0.
Proof.
  assert (HX : shape 2 2 [[0; 0]; [0; 0]]%Z) by (split; [reflexivity|repeat constructor]).
  assert (HV : shape 2 2 [[1; 2]; [3; 4]]) by (split; [reflexivity|repeat constructor]).
  assert (Hf : Forall (eq 1.0) (map (evaluate_solution perfect_classifier)
                                    [[0; 0]; [0; 0]]%Z)) by (repeat constructor).
  assert (H0 : (0 < 2)%nat) by lia. assert (H1 : (1 < 2)%nat) by lia.
  split; [exact half_tape_range|]. split; [exact HX|]. split; [exact HV|].
  split; [exact Hf|]. split; [exact H0|]. split; [exact H1|].
  exact (proj1 (identical_fitness_gives_no_acceleration
                  perfect_classifier half_tape 100 [[0; 0]; [0; 0]]%Z [[1; 2]; [3; 4]]
                  2 2 0%nat 1.0 half_tape_range HX HV Hf 0%nat 1%nat H0 H1)).
Defined.

Lemma first_velocity_witness :
  shape 1 2 [[3; 4]] /\
  fst (update_velocity half_tape 1 2 (V (initial_state ones_tape 1 2)) [[3; 4]] 0%nat)
  = [[3; 4]].
Proof.
  assert (Ha : shape 1 2 [[3; 4]]) by (split; [reflexivity|repeat constructor]).
  split; [exact Ha|].
  exact (proj2 (first_velocity_is_acceleration half_tape ones_tape 1 2 [[3; 4]] 0%nat Ha)).
Defined.

Lemma returned_best_witness :
  (0 < 2)%Z /\ (0 <= 3)%Z /\ (0 < 4)%Z /\
  exists res p,
    GSA_feature_selection perfect_classifier half_tape ones_tape 2 4 3 = Ok res /\
    r_best_position res = Some p /\
    r_best_accuracy res = Finite (1 - evaluate_solution perfect_classifier p).
Proof.
  assert (Hn : (0 < 2)%Z) by lia. assert (Hd : (0 <= 3)%Z) by lia.
  assert (HT : (0 < 4)%Z) by lia.
  split; [exact Hn|]. split; [exact Hd|]. split; [exact HT|].
  destruct (returned_best_is_minimum_of_evaluated
              perfect_classifier half_tape ones_tape 2 4 3 Hn Hd HT)
    as (res & p & Hres & Hp & Hacc & _).
  exists res, p. split; [exact Hres|]. split; [exact Hp|exact Hacc].
Defined.

Lemma feature_history_witness :
  (0 < 2)%Z /\ (0 <= 3)%Z /\
  exists res,
    GSA_feature_selection perfect_classifier half_tape ones_tape 2 4 3 = Ok res /\
    length (r_history_num_features res) = 4%nat.
Proof.
  assert (Hn : (0 < 2)%Z) by lia. assert (Hd : (0 <= 3)%Z) by lia.
  split; [exact Hn|]. split; [exact Hd|].
  destruct (feature_history_counts_best_position
              perfect_classifier half_tape ones_tape 2 4 3 Hn Hd)
    as (res & Hres & Hlen & _).
  exists res. split; [exact Hres|exact Hlen].
Defined.

Lemma draws_consumed_witness :
  (0 < 2)%nat /\
  exists st,
    loop perfect_classifier half_tape 2 3 4 (seq 0 (Z.to_nat 4))
         (initial_state ones_tape 2 3) = Ok st /\
    draws st = (2 * 3 + Z.to_nat 4 * (2 * (2 - 1) + 2 * (2 * 3)))%nat.
Proof.
  assert (Hn : (0 < 2)%nat) by lia.
  split; [exact Hn|].
  exact (proj2 (proj2 (proj2 (proj2
           (draws_consumed_by_a_run perfect_classifier half_tape ones_tape 2 3 4 Hn))))).
Defined.

Lemma every_population_witness :
  (forall k, binary (ones_tape k)) /\ (0 < 2)%Z /\ (0 <= 3)%Z /\
  exists res,
    GSA_feature_selection perfect_classifier half_tape ones_tape 2 4 3 = Ok res /\
    Forall (fun P => shape 2 3 P /\ Forall (Forall binary) P)
           (X (initial_state ones_tape 2 3) :: r_all_positions res).
Proof.
  assert (Hn : (0 < 2)%Z) by lia. assert (Hd : (0 <= 3)%Z) by lia.
  split; [exact ones_tape_binary|]. split; [exact Hn|]. split; [exact Hd|].
  exact (every_population_is_binary perfect_classifier half_tape ones_tape 2 4 3
           ones_tape_binary Hn Hd).
Defined.

Lemma printed_selection_witness :
  (forall k, binary (ones_tape k)) /\ (0 < 2)%Z /\ (0 <= 3)%Z /\ (0 < 4)%Z /\
  exists res best_subset,
    GSA_feature_selection perfect_classifier half_tape ones_tape 2 4 3 = Ok res /\
    r_best_position res = Some best_subset /\
    length (Np.where_eq1 best_subset) = last (r_history_num_features res) 0%nat.
Proof.
  assert (Hn : (0 < 2)%Z) by lia. assert (Hd : (0 <= 3)%Z) by lia.
  assert (HT : (0 < 4)%Z) by lia.
  split; [exact ones_tape_binary|]. split; [exact Hn|]. split; [exact Hd|].
  split; [exact HT|].
  destruct (printed_selection_matches_history
              perfect_classifier half_tape ones_tape 2 4 3 ones_tape_binary Hn Hd HT)
    as (res & p & Hres & Hp & _ & _ & Hcount & _).
  exists res, p. split; [exact Hres|]. split; [exact Hp|exact Hcount].
Defined.

(** ** Binarisation, single-agent runs and the returned accuracy *)

Lemma sigmoid_le (v w : R) : v <= w -> sigmoid v <= sigmoid w.
Proof.
  intros Hvw. unfold sigmoid, Rdiv. rewrite !Rmult_1_l.
  pose proof (exp_pos (- v)). pose proof (exp_pos (- w)).
  destruct (Req_dec v w) as [->|Hne]; [lra|].
  assert (exp (- w) < exp (- v)) by (apply exp_increasing; lra).
  left. apply Rinv_lt_contravar; [|lra]. apply Rmult_lt_0_compat; lra.
Qed.

Lemma sigmoid_entry (n d : nat) (V : list (list R)) (i k : nat) :
  shape n d V -> (i < n)%nat -> (k < d)%nat ->
  nth k (nth i (map (map sigmoid) V) []) 0 = sigmoid (nth k (nth i V []) 0).
Proof.
  intros HV Hi Hk.
  change (@nil R) with (map sigmoid []) at 1. rewrite map_nth.
  rewrite (nth_indep _ 0 (sigmoid 0))
    by (rewrite length_map, (shape_row n d V i HV Hi); exact Hk).
  now rewrite map_nth.
Qed.

Lemma update_position_entry (rand : nat -> R) (n d : nat) (S : list (list R))
      (c i k : nat) :
  shape n d S -> (i < n)%nat -> (k < d)%nat ->
  nth k (nth i (fst (update_position rand n d S c)) []) 0%Z
  = Np.astype_int (Np.gt (nth k (nth i S []) 0) (rand (c + i * d + k)%nat)).
Proof.
  intros HS Hi Hk.
  pose proof (random_rand_matrix_shape rand n d c) as Hr.
  unfold update_position, bind, ret. cbn [fst random_rand_matrix].
  change (map _ (seq 0 n)) with (fst (random_rand_matrix rand n d c)).
  rewrite (map2_entry (fun s x => Np.astype_int (Np.gt s x)) n d S _ i k 0 0 0%Z
             HS Hr Hi Hk).
  now rewrite random_rand_matrix_entry.
Qed.

(** X15. For the same draws the binarisation is monotone in the velocity:
    raising velocities entrywise never turns a bit from 1 to 0.  Each bit is
    1 exactly when its draw is below the sigmoid of its velocity. *)
Theorem position_bits_monotone_in_velocity
        (rand : nat -> R) (n d : nat) (V1 V2 : list (list R)) (c i k : nat) :
  shape n d V1 -> shape n d V2 -> (i < n)%nat -> (k < d)%nat ->
  let bit V := nth k (nth i (fst (update_position rand n d (map (map sigmoid) V) c)) []) 0%Z in
  (bit V1 = 1%Z <-> rand (c + i * d + k)%nat < sigmoid (nth k (nth i V1 []) 0)) /\
  (bit V1 = 0%Z <-> sigmoid (nth k (nth i V1 []) 0) <= rand (c + i * d + k)%nat) /\
  (nth k (nth i V1 []) 0 <= nth k (nth i V2 []) 0 -> (bit V1 <= bit V2)%Z).
Proof.
  intros H1 H2 Hi Hk bit.
  assert (Hbit : forall V, shape n d V ->
            bit V = Np.astype_int (Np.gt (sigmoid (nth k (nth i V []) 0))
                                         (rand (c + i * d + k)%nat))).
  { intros V HV. unfold bit.
    rewrite (update_position_entry rand n d _ c i k (shape_map sigmoid n d V HV) Hi Hk).
    now rewrite (sigmoid_entry n d V i k HV Hi Hk). }
  rewrite (Hbit V1 H1), (Hbit V2 H2). unfold Np.gt, Np.astype_int.
  split; [|split].
  - destruct (Rlt_dec _ _); split; intros; try reflexivity; try lra; discriminate.
  - destruct (Rlt_dec _ _); split; intros; try reflexivity; try lra; discriminate.
  - intros Hle. pose proof (sigmoid_le _ _ Hle).
    destruct (Rlt_dec (rand (c + i * d + k)%nat) (sigmoid (nth k (nth i V1 []) 0)));
      destruct (Rlt_dec (rand (c + i * d + k)%nat) (sigmoid (nth k (nth i V2 []) 0)));
      try lia; lra.
Qed.

Lemma zero_mass_acceleration (rand : nat -> R) (Gt : R) (M : list R)
      (X : list (list Z)) (n d c i k : nat) :
  shape n d X -> Forall (fun x => x = 0) M -> (i < n)%nat -> (k < d)%nat ->
  nth k (nth i (fst (accelerations rand Gt M X n d c)) []) 0 = 0.
Proof.
  intros HX HM Hi Hk.
  rewrite (accelerations_entry rand Gt M X n d c i k HX Hi Hk).
  unfold total_force_on. rewrite sum_all_zero; [unfold Rdiv; ring|].
  apply Forall_forall. intros y Hy. apply in_map_iff in Hy.
  destruct Hy as [j [<- _]]. destruct (Nat.eqb i j); [reflexivity|].
  unfold pairwise_force. rewrite (nth_all_zero M i HM). unfold Rdiv. ring.
Qed.

Section SingleAgent.

Variable accuracy : list nat -> R.
Variable rand : nat -> R.
Variable randint : nat -> Z.
Variable d : nat.
Variable max_iter : Z.

Lemma zero_velocity_shape : shape 1 d [Np.zeros d].
Proof. split; [reflexivity|]. constructor; [apply repeat_length|constructor]. Qed.

Lemma sigmoid_zero : sigmoid 0 = 1 / 2.
Proof. unfold sigmoid. rewrite Ropp_0, exp_0. lra. Qed.

Lemma single_agent_step (t k : nat) (st : state) :
  loop_invariant 1 d k st ->
  single_agent_invariant rand d k st ->
  exists st',
    iteration accuracy rand 1 d max_iter t st = Ok st' /\
    loop_invariant 1 d (S k) st' /\
    single_agent_invariant rand d (S k) st'.
Proof.
  intros Hinv (HV0 & Hdr & Hbits).
  destruct (iteration_preserves accuracy rand 1 d max_iter t k st ltac:(lia) Hinv)
    as (st' & Hit & Hinv' & _).
  exists st'. split; [exact Hit|]. split; [exact Hinv'|].
  destruct (iteration_ok_unfold accuracy rand 1 d max_iter t st st' Hit)
    as (best & worst & i & Hmn & Hmx & _ & Hst).
  cbv zeta in Hst. destruct Hinv as (HX & HV & Hsl & _). destruct Hinv' as (_ & HV' & _).
  destruct (X st) as [|x [|y l]] eqn:HXs;
    try (destruct HX as [Hlen _]; simpl in Hlen; lia).
  simpl in Hmn, Hmx. injection Hmn as <-. injection Hmx as <-.
  set (f := evaluate_solution accuracy x) in *.
  set (M := mass (raw_mass (map (evaluate_solution accuracy) [x]) f f)) in *.
  set (a := accelerations rand (G max_iter (Z.of_nat t)) M [x] 1 d (draws st)) in *.
  set (V' := update_velocity rand 1 d (V st) (fst a) (snd a)) in *.
  assert (HM : Forall (fun v => v = 0) M).
  { apply mass_of_zero. apply raw_mass_identical. repeat constructor. }
  assert (Hca : snd a = draws st).
  { unfold a. rewrite (accelerations_cursor rand 1 d _ _ _ _ HX). lia. }
  assert (HVz : fst V' = [Np.zeros d]).
  { apply (matrix_ext 1 d);
      [apply update_velocity_shape; [exact HV|apply accelerations_shape; exact HX]
      |apply zero_velocity_shape|].
    intros r b Hr Hb. unfold V'.
    rewrite (update_velocity_entry rand 1 d (V st) (fst a) (snd a) r b HV
               (accelerations_shape rand _ M [x] 1 d _ HX) Hr Hb).
    unfold a at 2.
    rewrite (zero_mass_acceleration rand _ M [x] 1 d _ r b HX HM Hr Hb).
    rewrite HV0. destruct r as [|r]; [|lia].
    change (nth 0 [Np.zeros d] []) with (Np.zeros d).
    rewrite (zeros_entry d b). ring. }
  subst st'. unfold single_agent_invariant.
  cbn [V draws all_positions].
  split; [exact HVz|]. split.
  - assert (Hc3 : snd (update_position rand 1 d (map (map sigmoid) (fst V')) (snd V'))
                  = (snd V' + 1 * d)%nat) by reflexivity.
    assert (Hc2 : snd V' = (snd a + 1 * d)%nat) by reflexivity.
    rewrite Hc3, Hc2, Hca, Hdr. lia.
  - intros s b Hs Hb.
    destruct (Nat.lt_ge_cases s k) as [Hlt|Hge].
    + rewrite app_nth1 by lia. now apply Hbits.
    + assert (s = k) by lia. subst s.
      rewrite app_nth2 by lia. rewrite Hsl, Nat.sub_diag. cbn [nth].
      assert (HS : shape 1 d (map (map sigmoid) (fst V'))).
      { rewrite HVz. apply shape_map. apply zero_velocity_shape. }
      rewrite (update_position_entry rand 1 d (map (map sigmoid) (fst V')) (snd V')
                 0 b HS ltac:(lia) Hb).
      rewrite HVz.
      rewrite (sigmoid_entry 1 d [Np.zeros d] 0 b zero_velocity_shape ltac:(lia) Hb).
      change (nth 0 [Np.zeros d] []) with (Np.zeros d). rewrite (zeros_entry d b).
      assert (Hc2 : snd V' = (snd a + 1 * d)%nat) by reflexivity.
      replace (snd V' + 0 * d + b)%nat with (d + k * (2 * d) + d + b)%nat;
        [reflexivity|].
      rewrite Hc2, Hca, Hdr. lia.
Qed.

Lemma single_agent_loop (ts : list nat) :
  forall k st,
    loop_invariant 1 d k st -> single_agent_invariant rand d k st ->
    exists st',
      loop accuracy rand 1 d max_iter ts st = Ok st' /\
      loop_invariant 1 d (k + length ts) st' /\
      single_agent_invariant rand d (k + length ts) st'.
Proof.
  induction ts as [|t ts IH]; intros k st Hinv HV; simpl.
  - exists st. rewrite Nat.add_0_r. split; [reflexivity|split; assumption].
  - destruct (single_agent_step t k st Hinv HV) as (st1 & Hit & Hinv1 & HV1).
    rewrite Hit. destruct (IH (S k) st1 Hinv1 HV1) as (st2 & Hl & Hinv2 & HV2).
    exists st2. rewrite Nat.add_succ_r. split; [exact Hl|split; assumption].
Qed.

(** X16. A run with a single agent never builds up velocity: the agent feels
    no force, its velocity is the zero vector after every iteration, and bit
    [b] of the position recorded in iteration [t] is 1 exactly when its draw
    (number [d + t * 2d + d + b] of the generator) is below one half. *)
Theorem single_agent_run_is_coin_flipping :
  exists st,
    loop accuracy rand 1 d max_iter (seq 0 (Z.to_nat max_iter))
         (initial_state randint 1 d) = Ok st /\
    V st = [Np.zeros d] /\
    length (all_positions st) = Z.to_nat max_iter /\
    (forall t b, (t < Z.to_nat max_iter)%nat -> (b < d)%nat ->
       let bit := nth b (nth 0 (nth t (all_positions st) []) []) 0%Z in
       let draw := rand (d + t * (2 * d) + d + b)%nat in
       (bit = 1%Z <-> draw < 1 / 2) /\ (bit = 0%Z <-> 1 / 2 <= draw)).
Proof.
  assert (H0 : single_agent_invariant rand d 0 (initial_state randint 1 d)).
  { unfold single_agent_invariant. cbn [V draws all_positions initial_state
                                        random_randint_matrix repeat].
    split; [reflexivity|]. split; [lia|]. intros t b Ht; lia. }
  destruct (single_agent_loop (seq 0 (Z.to_nat max_iter)) 0 (initial_state randint 1 d)
              (initial_state_invariant randint 1 d) H0)
    as (st & Hloop & Hinv & HV & _ & Hbits).
  rewrite length_seq, Nat.add_0_l in Hinv, Hbits.
  exists st. split; [exact Hloop|]. split; [exact HV|].
  destruct Hinv as (_ & _ & Hsl & _). split; [exact Hsl|].
  intros t b Ht Hb bit draw. unfold bit. rewrite (Hbits t b Ht Hb).
  fold draw. rewrite sigmoid_zero. unfold Np.gt, Np.astype_int.
  destruct (Rlt_dec draw (1 / 2)); split; split; intros;
    try reflexivity; try lra; try discriminate.
Qed.

End SingleAgent.

(** X17. The accuracy a run returns is not the classifier's accuracy on the
    best subset but that accuracy minus the parsimony penalty
    [0.01 * count / dim]: strictly less whenever a feature is selected, and
    0 when the best subset is empty. *)
Theorem returned_accuracy_is_penalised
        (accuracy : list nat -> R) (rand : nat -> R) (randint : nat -> Z)
        (num_agents max_iter dim : Z) :
  (0 < num_agents)%Z -> (0 <= dim)%Z -> (0 < max_iter)%Z ->
  exists res p,
    GSA_feature_selection accuracy rand randint num_agents max_iter dim = Ok res /\
    r_best_position res = Some p /\
    length p = Z.to_nat dim /\
    (Np.count_nonzero p = 0%nat -> r_best_accuracy res = Finite 0) /\
    (Np.count_nonzero p <> 0%nat ->
       exists penalty,
         penalty = 0.01 * (INR (Np.count_nonzero p) / INR (Z.to_nat dim)) /\
         0.01 / INR (Z.to_nat dim) <= penalty <= 0.01 /\
         r_best_accuracy res = Finite (accuracy (Np.where_eq1 p) - penalty)).
Proof.
  intros Hn Hd HT.
  destruct (GSA_returns_tracked accuracy rand randint num_agents max_iter dim Hn Hd)
    as (st & _ & Hinv & Htr & Hres).
  destruct Htr as (_ & _ & Hsh & _ & Hbp & _).
  destruct (best_position st) as [p|] eqn:Hp; [|destruct Hbp as [_ Hk]; lia].
  destruct Hbp as [Hf [P [HP HpP]]].
  assert (Hlen : length p = Z.to_nat dim).
  { rewrite Forall_forall in Hsh. destruct (Hsh P (in_removelast _ _ HP)) as [_ Hrows].
    rewrite Forall_forall in Hrows. apply Hrows. exact HpP. }
  eexists. exists p. split; [exact Hres|]. simpl.
  split; [reflexivity|]. split; [exact Hlen|]. rewrite Hf. simpl. split.
  - intros Hz. rewrite (evaluate_solution_zero accuracy p Hz). f_equal. ring.
  - intros Hnz. eexists. split; [reflexivity|].
    destruct (penalty_range p Hnz) as [[Hi Hlo] Hhi]. rewrite Hlen in Hi, Hlo, Hhi.
    split; [unfold Rdiv in *; lra|].
    rewrite (evaluate_solution_nonzero accuracy p Hnz), Hlen. f_equal. lra.
Qed.

Lemma single_agent_witness :
  exists st,
    loop perfect_classifier half_tape 1 3 4 (seq 0 (Z.to_nat 4))
         (initial_state ones_tape 1 3) = Ok st /\
    V st = [Np.zeros 3].
Proof.
  destruct (single_agent_run_is_coin_flipping perfect_classifier half_tape ones_tape 3 4)
    as (st & Hloop & HV & _).
  exists st. split; [exact Hloop|exact HV].
Defined.

Lemma position_bits_witness :
  shape 1 1 [[0]] /\ shape 1 1 [[1]] /\ (0 < 1)%nat /\ 0 <= 1 /\
  Z.le
    (nth 0 (nth 0 (fst (update_position half_tape 1 1 (map (map sigmoid) [[0]]) 0%nat)) [])
         0%Z)
    (nth 0 (nth 0 (fst (update_position half_tape 1 1 (map (map sigmoid) [[1]]) 0%nat)) [])
         0%Z).
Proof.
  assert (H1 : shape 1 1 [[0]]) by (split; [reflexivity|repeat constructor]).
  assert (H2 : shape 1 1 [[1]]) by (split; [reflexivity|repeat constructor]).
  assert (Hi : (0 < 1)%nat) by lia. assert (Hle : 0 <= 1) by lra.
  split; [exact H1|]. split; [exact H2|]. split; [exact Hi|]. split; [exact Hle|].
  exact (proj2 (proj2 (position_bits_monotone_in_velocity
                         half_tape 1 1 [[0]] [[1]] 0 0 0 H1 H2 Hi Hi)) Hle).
Defined.

Lemma returned_accuracy_witness :
  (0 < 2)%Z /\ (0 <= 3)%Z /\ (0 < 4)%Z /\
  exists res p,
    GSA_feature_selection perfect_classifier half_tape ones_tape 2 4 3 = Ok res /\
    r_best_position res = Some p /\ length p = Z.to_nat 3.
Proof.
  assert (Hn : (0 < 2)%Z) by lia. assert (Hd : (0 <= 3)%Z) by lia.
  assert (HT : (0 < 4)%Z) by lia.
  split; [exact Hn|]. split; [exact Hd|]. split; [exact HT|].
  destruct (returned_accuracy_is_penalised
              perfect_classifier half_tape ones_tape 2 4 3 Hn Hd HT)
    as (res & p & Hres & Hp & Hlen & _).
  exists res, p. split; [exact Hres|]. split; [exact Hp|exact Hlen].
Defined.
